(** * Places Search: the result normaliser/ranker and the query executor

    A shallow embedding of [main.py]: [search_places] (lines 44-68),
    [process_places] (lines 70-87) and the [search_clicked] handler
    (lines 130-198), followed by the properties the specification states
    about them.

    Layout: Part I holds the definitions (Python values, the normaliser, the
    sort, the network and page effects, the executor, the handler, and a
    second embedding of the normaliser and the sort on a store of mutable
    objects); Part II the lemmas about them; Part III the claims of the
    specification, each with the instance it is checked on. *)

From Stdlib Require Import ZArith String Ascii PrimFloat DecimalString DecimalZ.
Set Warnings "-register-all".
From stdpp Require Import gmap strings list fin_maps sorting.

(* ===================================================================== *)
(** * Part I. Definitions                                                 *)
(* ===================================================================== *)

(** ** Python values

    What [response.json()] can hand to the program: [None], [bool], [int],
    [float], [str], [list] and [dict] with [str] keys.  A [str] is kept as
    its UTF-8 bytes; a [float] is a binary64. *)

Inductive pyval : Type :=
  | PyNone
  | PyBool (b : bool)
  | PyInt (n : Z)
  | PyFloat (f : float)
  | PyStr (s : string)
  | PyList (l : list pyval)
  | PyDict (d : gmap string pyval).

(** Exceptions, by the class that an [except] clause tests.
    [RequestException] stands for [requests.exceptions.RequestException] and
    its subclasses and carries [str(e)]; [OperandError] for the [TypeError],
    [AttributeError] or [KeyError] an operation raises on an operand that
    does not support it. *)
Inductive exn : Type :=
  | RequestException (msg : string)
  | OperandError
  | OtherException (msg : string).

Inductive result (A : Type) : Type :=
  | Ok (a : A)
  | Raise (e : exn).
Arguments Ok {A} a.
Arguments Raise {A} e.

(** Sequencing: the first exception raised ends the computation. *)
Definition result_bind {A B : Type} (m : result A) (f : A → result B) : result B :=
  match m with
  | Ok a => f a
  | Raise e => Raise e
  end.

Notation "x <- m ; k" := (result_bind m (λ x, k))
  (at level 20, m at level 100, k at level 200, only parsing).

(** [bool(v)] *)
Definition truthy (v : pyval) : bool :=
  match v with
  | PyNone => false
  | PyBool b => b
  | PyInt n => negb (n =? 0)%Z
  | PyFloat f => negb (PrimFloat.eqb f 0%float)
  | PyStr s => negb (String.eqb s "")
  | PyList l => negb (bool_decide (l = []))
  | PyDict d => negb (bool_decide (size d = 0))
  end.

(** [needle in hay] on two [str]: substring test. *)
Fixpoint str_contains (needle hay : string) : bool :=
  String.prefix needle hay
  || match hay with
     | EmptyString => false
     | String _ hay' => str_contains needle hay'
     end.

(** [x == k] for a [str] literal [k]. *)
Definition py_eq_str (x : pyval) (k : string) : bool :=
  match x with
  | PyStr s => String.eqb s k
  | _ => false
  end.

(** [k in v] for a [str] literal [k]. *)
Definition py_in (k : string) (v : pyval) : result bool :=
  match v with
  | PyDict d => Ok (bool_decide (is_Some (d !! k)))
  | PyList l => Ok (existsb (λ x, py_eq_str x k) l)
  | PyStr s => Ok (str_contains k s)
  | _ => Raise OperandError
  end.

(** [v[k]] for a [str] literal [k]. *)
Definition py_getitem (v : pyval) (k : string) : result pyval :=
  match v with
  | PyDict d =>
      match d !! k with
      | Some x => Ok x
      | None => Raise OperandError
      end
  | _ => Raise OperandError
  end.

(** [v.get(k, dflt)] *)
Definition py_get (v : pyval) (k : string) (dflt : pyval) : result pyval :=
  match v with
  | PyDict d => Ok (default dflt (d !! k))
  | _ => Raise OperandError
  end.

(** ** The normaliser: [process_places], lines 70-87 *)

(** The dict literal of lines 78-84: five fixed keys, in this order. *)
Record NormalizedPlace : Type := {
  Name : pyval;
  Address : pyval;
  Price_Level : pyval;
  Has_Website : pyval;
  Website : pyval
}.

(** Line 76: [A and B] is [A] when [A] is falsy and [B] otherwise. *)
Definition has_website_of (place : pyval) : result pyval :=
  present <- py_in "websiteUri" place;
  if present then py_getitem place "websiteUri" else Ok (PyBool false).

(** The body of the loop, lines 75-84. *)
Definition process_place (place : pyval) : result NormalizedPlace :=
  has_website <- has_website_of place;
  display_name <- py_get place "displayName" (PyDict ∅);
  name <- py_get display_name "text" (PyStr "Unknown");
  address <- py_get place "formattedAddress" (PyStr "N/A");
  price_level <- py_get place "priceLevel" (PyStr "N/A");
  website <- (if truthy has_website
             then py_get place "websiteUri" (PyStr "N/A")
             else Ok (PyStr "N/A"));
  Ok {| Name := name;
        Address := address;
        Price_Level := price_level;
        Has_Website := PyStr (if truthy has_website then "Yes" else "No");
        Website := website |}.

(** The [for] loop of lines 74-85, [processed_places] growing by [append]. *)
Fixpoint process_places_from (processed_places : list NormalizedPlace)
    (places : list pyval) : result (list NormalizedPlace) :=
  match places with
  | [] => Ok processed_places
  | place :: rest =>
      processed_place <- process_place place;
      process_places_from (processed_places ++ [processed_place]) rest
  end.

Definition process_places (places : list pyval) : result (list NormalizedPlace) :=
  process_places_from [] places.

(** The specification's RawPlace (section 3): a record whose display name,
    when present, is a record whose [text], when present, is a string, and
    whose address, price level and website URI are strings when present. *)
Definition optional_str (d : gmap string pyval) (k : string) : bool :=
  match d !! k with
  | None | Some (PyStr _) => true
  | Some _ => false
  end.

Definition is_RawPlace (place : pyval) : bool :=
  match place with
  | PyDict d =>
      match d !! "displayName" with
      | None => true
      | Some (PyDict display_name) => optional_str display_name "text"
      | Some _ => false
      end
      && optional_str d "formattedAddress"
      && optional_str d "priceLevel"
      && optional_str d "websiteUri"
  | _ => false
  end.

(** ** The ranking: [processed_places.sort(key=...)], line 151

    [list.sort] is stable and compares keys with [<] only.  It is modelled
    as the stable insertion sort; Part II shows that any stable sort by this
    key computes the same list. *)

(** [a < b] on [bool]: [False < True]. *)
Definition bool_lt (a b : bool) : bool := negb a && b.

Section Sort.
Context {A : Type} (key : A → bool).

(** [x] goes in front of the first element whose key is not below its own. *)
Fixpoint insert_by_key (x : A) (l : list A) : list A :=
  match l with
  | [] => [x]
  | y :: l' =>
      if bool_lt (key y) (key x) then y :: insert_by_key x l'
      else x :: y :: l'
  end.

Fixpoint sort_by_key (l : list A) : list A :=
  match l with
  | [] => []
  | x :: l' => insert_by_key x (sort_by_key l')
  end.
End Sort.

(** The input position behind each output position: the same sort, run on
    the records paired with their positions. *)
Definition sort_origin {A : Type} (key : A → bool) (l : list A) : list nat :=
  (sort_by_key (λ p, key p.2) (zip (seq 0 (length l)) l)).*1.

(** Two records tagged with their input positions stand in the order of
    their tags when their keys agree. *)
Definition earlier {A : Type} (key : A → bool) (a b : nat * A) : Prop :=
  key a.2 = key b.2 → a.1 < b.1.

(** The sort key of line 151: [x['Has Website'] == 'Yes']. *)
Definition website_key (x : NormalizedPlace) : bool :=
  py_eq_str (Has_Website x) "Yes".

(** Lines 148 and 151 together: the specification's [normalizeAndRank]. *)
Definition normalize_and_rank (places : list pyval) : result (list NormalizedPlace) :=
  processed_places <- process_places places;
  Ok (sort_by_key website_key processed_places).

(** ** The network and the page

    [search_places] and the handler act on the outside world: one
    [requests.post] per call of [search_places], and [st.*] calls that draw
    the page.  The world records both, in order. *)

Record request : Type := {
  req_url : string;
  req_headers : list (string * string);
  req_json : list (string * string)
}.

(** A [requests.Response]: [json] is what [response.json()] does, a parsed
    value or the exception it raises on a body that is not JSON. *)
Record response : Type := {
  status_code : Z;
  text : string;
  json : result pyval
}.

Inductive st_call : Type :=
  | St_error (body : string)
  | St_warning (body : string)
  | St_success (body : string)
  | St_spinner (label : string)
  (** lines 153-193: the cards, the table, the CSV button and the raw JSON *)
  | St_results (processed_places : list NormalizedPlace)
               (search_query : string) (raw : pyval).

(** [network n req] is what the [n]-th request of the run meets: a response,
    or the exception [requests.post] raises. *)
Record world : Type := {
  network : nat → request → result response;
  sent : list request;
  page : list st_call
}.

(** Code with effects: a state that is threaded through, and exceptions. *)
Definition ST (S A : Type) : Type := S → result A * S.

Definition ST_ret {S A : Type} (a : A) : ST S A := λ s, (Ok a, s).

Definition ST_bind {S A B : Type} (m : ST S A) (f : A → ST S B) : ST S B :=
  λ s, match m s with
       | (Ok a, s') => f a s'
       | (Raise e, s') => (Raise e, s')
       end.

Notation "x <~ m ; k" := (ST_bind m (λ x, k))
  (at level 20, m at level 100, k at level 200, only parsing).
Notation "' pat <~ m ; k" := (ST_bind m (λ x, match x with pat => k end))
  (at level 20, pat pattern, m at level 100, k at level 200, only parsing).

(** A computation without effects, run inside effectful code. *)
Definition ST_lift {S A : Type} (r : result A) : ST S A := λ s, (r, s).

(** The handler and the executor act on the world. *)
Definition M (A : Type) : Type := ST world A.

(** The world after one more request has gone out. *)
Definition record_request (req : request) (w : world) : world :=
  {| network := network w; sent := sent w ++ [req]; page := page w |}.

(** The world after one more call into the page toolkit. *)
Definition record_call (c : st_call) (w : world) : world :=
  {| network := network w; sent := sent w; page := page w ++ [c] |}.

(** [requests.post(url, headers=headers, json=data)] *)
Definition requests_post (req : request) : M response :=
  λ w, (network w (length (sent w)) req, record_request req w).

(** A call into the page toolkit. *)
Definition st (c : st_call) : M unit :=
  λ w, (Ok tt, record_call c w).

(** [try: body / except requests.exceptions.RequestException as e: handler] *)
Definition try_except_RequestException {A : Type}
    (body : M A) (handler : string → M A) : M A :=
  λ w, match body w with
       | (Raise (RequestException msg), w') => handler msg w'
       | out => out
       end.

(** [str(n)] for an [int]. *)
Definition str_int (n : Z) : string := NilEmpty.string_of_int (Z.to_int n).

Definition newline : string := String "010"%char "".
Definition dquote : string := String "034"%char "".

(** ** The query executor: [search_places], lines 44-68 *)

Definition url : string := "https://places.googleapis.com/v1/places:searchText".

Definition field_mask : string :=
  "places.displayName,places.formattedAddress,places.priceLevel,places.websiteUri".

(** Line 64 *)
Definition request_failed_msg (status : Z) (body : string) : string :=
  "Request failed with status code: " +:+ str_int status
  +:+ newline +:+ "Error: " +:+ body.

(** Line 68 *)
Definition transport_error_msg (msg : string) : string :=
  "An error occurred: " +:+ msg.

(** Lines 47-55 and the arguments of line 58. *)
Definition places_request (query api_key : string) : request :=
  let headers := [("Content-Type", "application/json");
                  ("X-Goog-Api-Key", api_key);
                  ("X-Goog-FieldMask", field_mask)] in
  let data := [("textQuery", query)] in
  {| req_url := url; req_headers := headers; req_json := data |}.

(** The pair returned is [(result, error)]; [error] is [None] or a [str]. *)
Definition search_places (query api_key : string) : M (pyval * option string) :=
  try_except_RequestException
    (response <~ requests_post (places_request query api_key);
     if (status_code response =? 200)%Z then
       result <~ ST_lift (json response);
       ST_ret (result, None)
     else
       let error_msg := request_failed_msg (status_code response) (text response) in
       ST_ret (PyNone, Some error_msg))
    (λ e, ST_ret (PyNone, Some (transport_error_msg e))).

(** ** The handler of the search button, lines 130-198 *)

(** A UTF-8 continuation byte, [10xxxxxx]. *)
Definition is_continuation (c : ascii) : bool :=
  match c with
  | Ascii _ _ _ _ _ _ b6 b7 => b7 && negb b6
  end.

(** The characters of a [str]: each lead byte with its continuation bytes. *)
Fixpoint utf8_chars (s : string) : list string :=
  match s with
  | EmptyString => []
  | String c s' =>
      match s' with
      | String c' _ =>
          if is_continuation c' then
            match utf8_chars s' with
            | h :: t => String c h :: t
            | [] => [String c ""]
            end
          else String c "" :: utf8_chars s'
      | EmptyString => [String c ""]
      end
  end.

(** [len(v)] *)
Definition py_len (v : pyval) : result nat :=
  match v with
  | PyList l => Ok (length l)
  | PyDict d => Ok (size d)
  | PyStr s => Ok (length (utf8_chars s))
  | _ => Raise OperandError
  end.

(** What [for x in v] runs over.  A [dict] yields its keys; their order here
    is the map's, not the order of insertion. *)
Definition py_iter (v : pyval) : result (list pyval) :=
  match v with
  | PyList l => Ok l
  | PyDict d => Ok (PyStr <$> (map_to_list d).*1)
  | PyStr s => Ok (PyStr <$> utf8_chars s)
  | _ => Raise OperandError
  end.

(** [bool(error)] for the second component of [search_places]'s pair. *)
Definition truthy_error (error : option string) : bool :=
  match error with
  | None => false
  | Some s => negb (String.eqb s "")
  end.

(** Lines 141-198, once [search_places] has returned without an error. *)
Definition show_result (search_query : string) (result : pyval) : M unit :=
  has_places <~ ST_lift (if truthy result then py_in "places" result else Ok false);
  if has_places then
    places <~ ST_lift (py_getitem result "places");
    if truthy places then
      n <~ ST_lift (py_len places);
      _ <~ st (St_success ("✅ Found " +:+ str_int (Z.of_nat n)
                           +:+ " result(s) for '" +:+ search_query +:+ "'"));
      items <~ ST_lift (py_iter places);
      processed_places <~ ST_lift (normalize_and_rank items);
      st (St_results processed_places search_query result)
    else
      st (St_warning ("No results found for '" +:+ search_query +:+ "'"))
  else
    st (St_warning "No results returned from the API").

Definition handler (search_clicked : bool) (search_query api_key : string) : M unit :=
  if search_clicked then
    if negb (truthy (PyStr search_query)) then
      st (St_error "Please enter a search query")
    else if negb (truthy (PyStr api_key)) then
      st (St_error "Please provide your Google Places API key in the settings above")
    else
      _ <~ st (St_spinner ("Searching for " +:+ dquote +:+ search_query
                           +:+ dquote +:+ "..."));
      '(result, error) <~ search_places search_query api_key;
      if truthy_error error then
        st (St_error ("❌ " +:+ default "" error))
      else
        show_result search_query result
  else ST_ret tt.

(** Computations that send nothing. *)
Definition sends_nothing {A : Type} (m : M A) : Prop :=
  ∀ w, sent (m w).2 = sent w.

(** ** The same code on a store of objects

    Python lists and dicts are objects with an identity, held by reference
    and updated in place.  This second embedding of lines 70-87 and 151
    keeps the store explicit, so that what the code allocates, reads and
    writes can be stated.  Numbers, strings, booleans and [None] are
    immutable and kept as plain values. *)

Definition loc : Type := positive.

Inductive val : Type :=
  | VNone
  | VBool (b : bool)
  | VInt (n : Z)
  | VFloat (f : float)
  | VStr (s : string)
  | VRef (l : loc).

(** A dict keeps its entries in insertion order, each key once. *)
Inductive obj : Type :=
  | OList (items : list val)
  | ODict (entries : list (string * val)).

(** The objects of the interpreter, and the world outside it. *)
Record machine : Type := {
  objects : gmap loc obj;
  outside : world
}.

Definition Py (A : Type) : Type := ST machine A.

Fixpoint entry (k : string) (entries : list (string * val)) : option val :=
  match entries with
  | [] => None
  | (k', v) :: rest => if String.eqb k' k then Some v else entry k rest
  end.

(** A new object, at a location not in use. *)
Definition alloc (o : obj) : Py loc :=
  λ s, let l := fresh (dom (objects s)) in
       (Ok l, {| objects := <[l := o]> (objects s); outside := outside s |}).

(** The object behind a reference.  A reference to no object cannot arise
    in Python; it is an error here. *)
Definition read (l : loc) : Py obj :=
  λ s, (match objects s !! l with
        | Some o => Ok o
        | None => Raise (OtherException "dangling reference")
        end, s).

(** An update in place. *)
Definition write (l : loc) (o : obj) : Py unit :=
  λ s, (Ok tt, {| objects := <[l := o]> (objects s); outside := outside s |}).

Definition raise {A : Type} (e : exn) : Py A := ST_lift (Raise e).

Module Store.

(** [bool(v)] *)
Definition truthy (v : val) : Py bool :=
  match v with
  | VNone => ST_ret false
  | VBool b => ST_ret b
  | VInt n => ST_ret (negb (n =? 0)%Z)
  | VFloat f => ST_ret (negb (PrimFloat.eqb f 0%float))
  | VStr s => ST_ret (negb (String.eqb s ""))
  | VRef l =>
      o <~ read l;
      match o with
      | OList items => ST_ret (negb (bool_decide (items = [])))
      | ODict entries => ST_ret (negb (bool_decide (entries = [])))
      end
  end.

(** [x == k] for a [str] literal [k]. *)
Definition py_eq_str (x : val) (k : string) : bool :=
  match x with
  | VStr s => String.eqb s k
  | _ => false
  end.

(** [k in v] *)
Definition py_in (k : string) (v : val) : Py bool :=
  match v with
  | VRef l =>
      o <~ read l;
      match o with
      | OList items => ST_ret (existsb (λ x, py_eq_str x k) items)
      | ODict entries => ST_ret (bool_decide (is_Some (entry k entries)))
      end
  | VStr s => ST_ret (str_contains k s)
  | _ => raise OperandError
  end.

(** [v[k]] *)
Definition py_getitem (v : val) (k : string) : Py val :=
  match v with
  | VRef l =>
      o <~ read l;
      match o with
      | ODict entries =>
          match entry k entries with
          | Some x => ST_ret x
          | None => raise OperandError
          end
      | OList _ => raise OperandError
      end
  | _ => raise OperandError
  end.

(** [v.get(k, dflt)] *)
Definition py_get (v : val) (k : string) (dflt : val) : Py val :=
  match v with
  | VRef l =>
      o <~ read l;
      match o with
      | ODict entries => ST_ret (default dflt (entry k entries))
      | OList _ => raise OperandError
      end
  | _ => raise OperandError
  end.

(** What [for x in v] runs over, taken when the loop starts.  The loop of
    [process_places] writes to no object that was there before it started,
    so what it runs over does not change under it. *)
Definition py_iter (v : val) : Py (list val) :=
  match v with
  | VRef l =>
      o <~ read l;
      match o with
      | OList items => ST_ret items
      | ODict entries => ST_ret (VStr <$> entries.*1)
      end
  | VStr s => ST_ret (VStr <$> utf8_chars s)
  | _ => raise OperandError
  end.

(** [l.append(x)] on the list object at [l]. *)
Definition append (l : loc) (x : val) : Py unit :=
  o <~ read l;
  match o with
  | OList items => write l (OList (items ++ [x]))
  | ODict _ => raise OperandError
  end.

Fixpoint for_each {A : Type} (items : list A) (body : A → Py unit) : Py unit :=
  match items with
  | [] => ST_ret tt
  | x :: rest => _ <~ body x; for_each rest body
  end.

Fixpoint map_each {A B : Type} (f : A → Py B) (items : list A) : Py (list B) :=
  match items with
  | [] => ST_ret []
  | x :: rest => y <~ f x; ys <~ map_each f rest; ST_ret (y :: ys)
  end.

(** Lines 75-85: one turn of the loop, [processed_places] being the list
    object the turn appends to. *)
Definition process_place (processed_places : loc) (place : val) : Py unit :=
  has_website <~ (present <~ py_in "websiteUri" place;
                  if present then py_getitem place "websiteUri"
                  else ST_ret (VBool false));
  empty <~ alloc (ODict []);
  display_name <~ py_get place "displayName" (VRef empty);
  name <~ py_get display_name "text" (VStr "Unknown");
  address <~ py_get place "formattedAddress" (VStr "N/A");
  price_level <~ py_get place "priceLevel" (VStr "N/A");
  yes <~ truthy has_website;
  again <~ truthy has_website;
  website <~ (if again then py_get place "websiteUri" (VStr "N/A")
              else ST_ret (VStr "N/A"));
  processed_place <~ alloc (ODict [("Name", name);
                                   ("Address", address);
                                   ("Price Level", price_level);
                                   ("Has Website", VStr (if yes then "Yes" else "No"));
                                   ("Website", website)]);
  append processed_places (VRef processed_place).

(** Lines 70-87 *)
Definition process_places (places : val) : Py val :=
  processed_places <~ alloc (OList []);
  items <~ py_iter places;
  _ <~ for_each items (process_place processed_places);
  ST_ret (VRef processed_places).

(** [v.sort(key=key)]: the keys are computed once, the list object is
    rewritten in place. *)
Definition sort (v : val) (key : val → Py bool) : Py unit :=
  match v with
  | VRef l =>
      o <~ read l;
      match o with
      | OList items =>
          keys <~ map_each key items;
          write l (OList (sort_by_key fst (zip keys items)).*2)
      | ODict _ => raise OperandError
      end
  | _ => raise OperandError
  end.

(** The key of line 151 *)
Definition website_key (x : val) : Py bool :=
  has_website <~ py_getitem x "Has Website";
  ST_ret (py_eq_str has_website "Yes").

(** Lines 148 and 151 *)
Definition normalize_and_rank (places : val) : Py val :=
  processed_places <~ process_places places;
  _ <~ sort processed_places website_key;
  ST_ret processed_places.

End Store.

(** *** What a stored value denotes

    [denotes h v t]: read through the store [h], the value [v] is the tree
    [t].  The index bounds the depth of the reading. *)
Fixpoint denotes_within (n : nat) (h : gmap loc obj) (v : val) (t : pyval) : Prop :=
  match n with
  | 0 => False
  | S n =>
      match v, t with
      | VNone, PyNone => True
      | VBool b, PyBool b' => b = b'
      | VInt a, PyInt a' => a = a'
      | VFloat f, PyFloat f' => f = f'
      | VStr s, PyStr s' => s = s'
      | VRef l, PyList ts =>
          ∃ items, h !! l = Some (OList items) ∧
                   Forall2 (denotes_within n h) items ts
      | VRef l, PyDict d =>
          ∃ entries, h !! l = Some (ODict entries) ∧
                     ∀ k, option_Forall2 (denotes_within n h) (entry k entries) (d !! k)
      | _, _ => False
      end
  end.

Definition denotes (h : gmap loc obj) (v : val) (t : pyval) : Prop :=
  ∃ n, denotes_within n h v t.

(** The dict of lines 78-84 as a tree. *)
Definition dict_of (x : NormalizedPlace) : pyval :=
  PyDict (list_to_map [("Name", Name x);
                       ("Address", Address x);
                       ("Price Level", Price_Level x);
                       ("Has Website", Has_Website x);
                       ("Website", Website x)]).

(** [s'] differs from [s] at most at [pl] and at locations new in [s']. *)
Definition unchanged_except (pl : loc) (s s' : machine) : Prop :=
  outside s' = outside s ∧
  ∀ l, l ≠ pl → is_Some (objects s !! l) → objects s' !! l = objects s !! l.

(** [v] refers to a dict object of store [h] that has the five entries of
    lines 78-84, and these entries read, through [h0], as the fields of [x]. *)
Definition record_at (h0 h : gmap loc obj) (v : val) (x : NormalizedPlace) : Prop :=
  ∃ d name address price_level yes website,
    v = VRef d ∧
    h !! d = Some (ODict [("Name", name);
                          ("Address", address);
                          ("Price Level", price_level);
                          ("Has Website", VStr yes);
                          ("Website", website)]) ∧
    denotes h0 name (Name x) ∧
    denotes h0 address (Address x) ∧
    denotes h0 price_level (Price_Level x) ∧
    Has_Website x = PyStr yes ∧
    denotes h0 website (Website x).

(** ** Inputs of the specification's scenarios *)

(** Scenario A: [{displayName: {text: "Cafe A"}, formattedAddress: "1 Main St"}] *)
Definition cafe_a : pyval :=
  PyDict (<["displayName" := PyDict {["text" := PyStr "Cafe A"]}]>
          (<["formattedAddress" := PyStr "1 Main St"]> ∅)).

(** Scenario B: a place with [websiteUri: "http://x.com"]. *)
Definition with_site : pyval :=
  PyDict (<["displayName" := PyDict {["text" := PyStr "Shop B"]}]>
          (<["websiteUri" := PyStr "http://x.com"]> ∅)).

(** A world in which every request meets the same outcome. *)
Definition world_of (outcome : result response) : world :=
  {| network := λ _ _, outcome; sent := []; page := [] |}.

(** Scenario D: status 403 with body [forbidden]. *)
Definition forbidden : response :=
  {| status_code := 403; text := "forbidden";
     json := Raise (RequestException "Expecting value: line 1 column 1 (char 0)") |}.

(** A status of the success range other than 200, with a body that parses. *)
Definition created : response :=
  {| status_code := 201; text := "{}"; json := Ok (PyDict ∅) |}.

(** Status 200 with the JSON body [null]. *)
Definition null_body : response :=
  {| status_code := 200; text := "null"; json := Ok PyNone |}.

(** Status 200 with the body [{}]: no [places] key. *)
Definition no_places_key : response :=
  {| status_code := 200; text := "{}"; json := Ok (PyDict ∅) |}.

(** Status 200 with an empty [places] list. *)
Definition empty_places : response :=
  {| status_code := 200;
     text := "{" +:+ dquote +:+ "places" +:+ dquote +:+ ": []}";
     json := Ok (PyDict {["places" := PyList []]}) |}.

(** Two stores that hold the places of Scenario B at different locations,
    among other objects, in two different worlds. *)
Definition store_a : machine :=
  {| objects :=
       <[1%positive := OList [VRef 2%positive; VRef 4%positive]]>
       (<[2%positive := ODict [("displayName", VRef 3%positive);
                               ("websiteUri", VStr "http://x.com")]]>
       (<[3%positive := ODict [("text", VStr "Shop B")]]>
       (<[4%positive := ODict [("displayName", VRef 5%positive);
                               ("formattedAddress", VStr "1 Main St")]]>
       (<[5%positive := ODict [("text", VStr "Cafe A")]]> ∅))));
     outside := world_of (Ok forbidden) |}.

Definition store_b : machine :=
  {| objects :=
       <[9%positive := OList [VRef 8%positive; VRef 6%positive]]>
       (<[8%positive := ODict [("websiteUri", VStr "http://x.com");
                               ("displayName", VRef 7%positive)]]>
       (<[7%positive := ODict [("text", VStr "Shop B")]]>
       (<[6%positive := ODict [("formattedAddress", VStr "1 Main St");
                               ("displayName", VRef 2%positive)]]>
       (<[2%positive := ODict [("text", VStr "Cafe A")]]>
       (<[1%positive := OList [VInt 7]]> ∅)))));
     outside := world_of (Ok created) |}.

(** The specification's success range of HTTP statuses, 200 to 299. *)
Definition in_success_range (status : Z) : bool :=
  (200 <=? status)%Z && (status <? 300)%Z.

(** ** Further definitions

    What the properties of Part IV are stated with. *)

(** The places the loop of [process_places] gets through: a dict whose
    [displayName], when present, is a dict. *)
Definition processable (place : pyval) : bool :=
  match place with
  | PyDict d =>
      match d !! "displayName" with
      | None | Some (PyDict _) => true
      | Some _ => false
      end
  | _ => false
  end.

(** Line 76 as a test: [websiteUri] is present and truthy. *)
Definition place_has_website (place : pyval) : bool :=
  match place with
  | PyDict d => truthy (default (PyBool false) (d !! "websiteUri"))
  | _ => false
  end.

(** [s.replace(' ', '_')] *)
Fixpoint replace_spaces (s : string) : string :=
  match s with
  | EmptyString => EmptyString
  | String c s' => String (if Ascii.eqb c " " then "_"%char else c) (replace_spaces s')
  end.

(** Line 186: the [file_name] of the download button. *)
Definition download_file_name (search_query : string) : string :=
  "search_results_" +:+ replace_spaces search_query +:+ ".csv".

(** Line 136 *)
Definition spinner_label (search_query : string) : string :=
  "Searching for " +:+ dquote +:+ search_query +:+ dquote +:+ "...".


(** Code that only draws: it leaves the network and the requests sent as
    they are, and adds calls after those already on the page. *)
Definition draws_only {A : Type} (m : M A) : Prop :=
  ∀ w, ∃ calls,
    (m w).2 = {| network := network w; sent := sent w; page := page w ++ calls |}.

(** Status 200 with a body that is not JSON: [response.json()] raises the
    [JSONDecodeError] of [requests], a [RequestException]. *)
Definition html_body : response :=
  {| status_code := 200; text := "<html>Service unavailable</html>";
     json := Raise (RequestException "Expecting value: line 1 column 1 (char 0)") |}.


(* ===================================================================== *)
(** * Part II. Lemmas                                                     *)
(* ===================================================================== *)

(** ** Exceptions and sequencing *)

Lemma result_bind_Ok {A B : Type} (m : result A) (f : A → result B) (b : B) :
  result_bind m f = Ok b ↔ ∃ a, m = Ok a ∧ f a = Ok b.
Proof.
  destruct m as [a|e]; simpl; split.
  - intros H. by exists a.
  - by intros (a' & [= ->] & H).
  - discriminate.
  - by intros (a' & [=] & _).
Qed.

(** ** The normaliser on one record *)

(** Line 76 on a dict: the value under [websiteUri], or [False]. *)
Lemma has_website_of_dict (d : gmap string pyval) :
  has_website_of (PyDict d) = Ok (default (PyBool false) (d !! "websiteUri")).
Proof.
  unfold has_website_of. simpl.
  destruct (d !! "websiteUri") as [v|] eqn:E; simpl; by rewrite ?E.
Qed.

(** Lines 76-84 on a dict, with every [.get] on the dict itself resolved. *)
Lemma process_place_dict (d : gmap string pyval) :
  process_place (PyDict d) =
    let has_website := default (PyBool false) (d !! "websiteUri") in
    name <- py_get (default (PyDict ∅) (d !! "displayName")) "text" (PyStr "Unknown");
    Ok {| Name := name;
          Address := default (PyStr "N/A") (d !! "formattedAddress");
          Price_Level := default (PyStr "N/A") (d !! "priceLevel");
          Has_Website := PyStr (if truthy has_website then "Yes" else "No");
          Website := if truthy has_website
                     then default (PyStr "N/A") (d !! "websiteUri")
                     else PyStr "N/A" |}.
Proof.
  unfold process_place. rewrite has_website_of_dict. simpl.
  destruct (py_get _ "text" _) as [name|e]; simpl; [|done].
  by destruct (truthy _).
Qed.

(** Anything but a dict makes the loop body raise. *)
Lemma process_place_Ok_dict (place : pyval) (x : NormalizedPlace) :
  process_place place = Ok x → ∃ d, place = PyDict d.
Proof.
  destruct place as [| | | |s|l|d]; try discriminate; [| |by eauto].
  - unfold process_place, has_website_of. simpl.
    destruct (str_contains _ _); discriminate.
  - unfold process_place, has_website_of. simpl.
    destruct (existsb _ _); discriminate.
Qed.

Lemma optional_str_cases (d : gmap string pyval) (k : string) :
  optional_str d k = true → d !! k = None ∨ ∃ s, d !! k = Some (PyStr s).
Proof.
  unfold optional_str. destruct (d !! k) as [[]|]; try discriminate; eauto.
Qed.

Lemma truthy_PyStr (s : string) : truthy (PyStr s) = true ↔ s ≠ "".
Proof.
  simpl. destruct (String.eqb_spec s ""); simpl; split; congruence.
Qed.

(** A well-typed record never makes the loop body raise. *)
Lemma process_place_RawPlace (place : pyval) :
  is_RawPlace place = true → ∃ x, process_place place = Ok x.
Proof.
  destruct place as [| | | | | |d]; try discriminate. simpl.
  rewrite !andb_true_iff. intros [[[Hn _] _] _].
  rewrite process_place_dict. cbv zeta.
  destruct (d !! "displayName") as [[| | | | | |dn]|]; try discriminate; simpl; eauto.
Qed.

(** ** The normaliser on a sequence *)

Lemma process_places_from_Ok (acc : list NormalizedPlace) (places : list pyval)
    (out : list NormalizedPlace) :
  process_places_from acc places = Ok out ↔
  ∃ news, out = acc ++ news ∧ Forall2 (λ p x, process_place p = Ok x) places news.
Proof.
  revert acc. induction places as [|place rest IH]; intros acc; simpl.
  - split.
    + intros [= <-]. exists []. by rewrite app_nil_r.
    + intros (news & -> & H). inversion H. by rewrite app_nil_r.
  - rewrite result_bind_Ok. split.
    + intros (x & Hx & Hrest). apply IH in Hrest as (news & -> & Hnews).
      exists (x :: news). split; [by rewrite <- app_assoc|by constructor].
    + intros (news & -> & H). inversion H as [|? x ? news' Hx Hnews]; subst.
      exists x. split; [done|]. apply IH. exists news'.
      split; [by rewrite <- app_assoc|done].
Qed.

(** The loop returns exactly the list of the records' images, in order. *)
Lemma process_places_Ok (places : list pyval) (out : list NormalizedPlace) :
  process_places places = Ok out ↔
  Forall2 (λ p x, process_place p = Ok x) places out.
Proof.
  unfold process_places. rewrite process_places_from_Ok. split.
  - by intros (news & -> & H).
  - intros H. by exists out.
Qed.

(** On well-typed records the loop returns. *)
Lemma process_places_total (places : list pyval) :
  Forall (λ p, is_RawPlace p = true) places →
  ∃ out, process_places places = Ok out.
Proof.
  intros H.
  cut (∃ out, Forall2 (λ p x, process_place p = Ok x) places out).
  { intros [out Hout]. exists out. by apply process_places_Ok. }
  induction H as [|p ps Hp _ [out IH]].
  - exists []. constructor.
  - destruct (process_place_RawPlace p Hp) as [x Hx].
    exists (x :: out). by constructor.
Qed.

(** ** The sort *)

Section SortFacts.
Context {A : Type} (key : A → bool).

Lemma insert_by_key_perm (x : A) (l : list A) :
  insert_by_key key x l ≡ₚ x :: l.
Proof.
  induction l as [|y l IH]; simpl; [done|].
  destruct (bool_lt (key y) (key x)); [|done].
  rewrite IH. apply Permutation_swap.
Qed.

(** Nothing is dropped, merged or invented. *)
Lemma sort_by_key_perm (l : list A) : sort_by_key key l ≡ₚ l.
Proof.
  induction l as [|x l IH]; simpl; [done|].
  by rewrite insert_by_key_perm, IH.
Qed.

Lemma sort_by_key_length (l : list A) : length (sort_by_key key l) = length l.
Proof. by rewrite sort_by_key_perm. Qed.

(** A key [False] record goes to the front. *)
Lemma insert_by_key_false (x : A) (l : list A) :
  key x = false → insert_by_key key x l = x :: l.
Proof.
  intros Hx. destruct l as [|y l]; simpl; [done|].
  unfold bool_lt. rewrite Hx. by rewrite andb_false_r.
Qed.

(** A key [True] record goes behind the [False] ones, before the [True] ones. *)
Lemma insert_by_key_true (x : A) (no yes : list A) :
  key x = true →
  Forall (λ y, key y = false) no → Forall (λ y, key y = true) yes →
  insert_by_key key x (no ++ yes) = no ++ x :: yes.
Proof.
  intros Hx Hno Hyes. induction Hno as [|y no Hy _ IH]; simpl.
  - destruct Hyes as [|y yes Hy _]; simpl; [done|].
    unfold bool_lt. by rewrite Hx, Hy.
  - unfold bool_lt. rewrite Hx, Hy. simpl. by rewrite IH.
Qed.

(** The sorted list is the [False] records in input order, then the [True]
    records in input order. *)
Lemma sort_by_key_partition (l : list A) :
  sort_by_key key l =
    filter (λ x, key x = false) l ++ filter (λ x, key x = true) l.
Proof.
  induction l as [|x l IH]; simpl; [done|].
  rewrite IH. destruct (key x) eqn:Hx.
  - rewrite filter_cons_False by congruence.
    rewrite filter_cons_True by done.
    apply insert_by_key_true; [done|..];
      apply Forall_forall; intros y Hy;
      by apply list_elem_of_filter in Hy as [? _].
  - rewrite filter_cons_True by done.
    rewrite filter_cons_False by congruence.
    by apply insert_by_key_false.
Qed.

Lemma filter_none (P : A → Prop) `{!∀ x, Decision (P x)} (l : list A) :
  (∀ x, ¬ P x) → filter P l = [].
Proof.
  intros HP. induction l as [|x l IH]; [done|].
  by rewrite filter_cons_False.
Qed.

Lemma filter_where (P : A → Prop) `{!∀ x, Decision (P x)} (l : list A) :
  Forall P l → filter P l = l.
Proof.
  induction 1 as [|x l Hx _ IH]; [done|].
  by rewrite filter_cons_True, IH.
Qed.

Lemma filter_nowhere (Q P : A → Prop) `{!∀ x, Decision (P x)} (l : list A) :
  Forall Q l → (∀ x, Q x → ¬ P x) → filter P l = [].
Proof.
  intros HQ HQP. induction HQ as [|x l Hx _ IH]; [done|].
  rewrite filter_cons_False; [done|by apply HQP].
Qed.

(** Stability, by key: the records of one key keep their input order. *)
Lemma sort_by_key_stable (b : bool) (l : list A) :
  filter (λ x, key x = b) (sort_by_key key l) = filter (λ x, key x = b) l.
Proof.
  rewrite sort_by_key_partition, filter_app.
  rewrite !list_filter_filter.
  destruct b.
  - rewrite (filter_none (λ x, key x = true ∧ key x = false))
      by (intros x [??]; congruence).
    simpl. apply list_filter_iff. intros x; tauto.
  - rewrite (filter_none (λ x, key x = false ∧ key x = true))
      by (intros x [??]; congruence).
    rewrite app_nil_r. apply list_filter_iff. intros x; tauto.
Qed.

(** No [True] record stands before a [False] one. *)
Lemma sort_by_key_ordered (l : list A) (i j : nat) (x y : A) :
  i < j →
  sort_by_key key l !! i = Some x → sort_by_key key l !! j = Some y →
  ¬ (key x = true ∧ key y = false).
Proof.
  rewrite sort_by_key_partition.
  set (no := filter (λ x, key x = false) l).
  set (yes := filter (λ x, key x = true) l).
  intros Hij Hi Hj [Hx Hy].
  assert (length no ≤ i) as Hlen.
  { destruct (decide (i < length no)) as [Hlt|]; [|lia].
    rewrite lookup_app_l in Hi by done.
    apply list_elem_of_lookup_2, list_elem_of_filter in Hi as [? _]. congruence. }
  rewrite lookup_app_r in Hj by lia.
  apply list_elem_of_lookup_2, list_elem_of_filter in Hj as [? _]. congruence.
Qed.

(** A list with no [True] record before a [False] one is its [False]
    records followed by its [True] records. *)
Lemma ordered_partition (l : list A) :
  (∀ i j x y, i < j → l !! i = Some x → l !! j = Some y →
              ¬ (key x = true ∧ key y = false)) →
  l = filter (λ x, key x = false) l ++ filter (λ x, key x = true) l.
Proof.
  induction l as [|x l IH]; intros Hord; [done|].
  assert (∀ i j a b, i < j → l !! i = Some a → l !! j = Some b →
                     ¬ (key a = true ∧ key b = false)) as Hord'.
  { intros i j a b Hij Hi Hj. apply (Hord (S i) (S j) a b); [lia|done..]. }
  destruct (key x) eqn:Hx.
  - rewrite filter_cons_False by congruence.
    rewrite filter_cons_True by done.
    assert (Forall (λ y, key y = true) l) as Hall.
    { apply Forall_forall. intros y Hy.
      apply list_elem_of_lookup in Hy as [j Hj].
      destruct (key y) eqn:Hy; [done|].
      destruct (Hord 0 (S j) x y); [lia|done..]. }
    rewrite (filter_where (λ y, key y = true)) by done.
    by rewrite (filter_nowhere (λ y, key y = true))
      by (done || intros ? ->; done).
  - rewrite filter_cons_True by done.
    rewrite filter_cons_False by congruence.
    simpl. f_equal. by apply IH.
Qed.

(** Every stable arrangement by this key is the sorted list: the choice of
    sorting algorithm does not show in the result. *)
Lemma stable_sort_unique (l out : list A) :
  (∀ b, filter (λ x, key x = b) out = filter (λ x, key x = b) l) →
  (∀ i j x y, i < j → out !! i = Some x → out !! j = Some y →
              ¬ (key x = true ∧ key y = false)) →
  out = sort_by_key key l.
Proof.
  intros Hstable Hord.
  rewrite sort_by_key_partition, <- !Hstable.
  by apply ordered_partition.
Qed.

End SortFacts.

(** ** Where each sorted record comes from *)

Section Provenance.
Context {A : Type} (key : A → bool).

Lemma insert_by_key_fmap {B : Type} (f : B → A) (x : B) (l : list B) :
  f <$> insert_by_key (λ b, key (f b)) x l = insert_by_key key (f x) (f <$> l).
Proof.
  induction l as [|y l IH]; [done|].
  rewrite fmap_cons. cbn [insert_by_key].
  destruct (bool_lt _ _); rewrite ?fmap_cons; [by rewrite IH|done].
Qed.

(** Sorting commutes with dropping the tags. *)
Lemma sort_by_key_fmap {B : Type} (f : B → A) (l : list B) :
  f <$> sort_by_key (λ b, key (f b)) l = sort_by_key key (f <$> l).
Proof.
  induction l as [|x l IH]; [done|].
  rewrite fmap_cons. cbn [sort_by_key].
  by rewrite insert_by_key_fmap, IH.
Qed.

Lemma insert_by_key_earlier (x : nat * A) (s : list (nat * A)) :
  Forall (λ y, x.1 < y.1) s →
  StronglySorted (earlier key) s →
  StronglySorted (earlier key) (insert_by_key (λ p, key p.2) x s).
Proof.
  intros Hx Hs. induction Hs as [|y s Hs IH Hy]; simpl.
  - repeat constructor.
  - apply Forall_cons in Hx as [Hxy Hxs].
    destruct (bool_lt (key y.2) (key x.2)) eqn:Hlt.
    + constructor; [by apply IH|].
      rewrite insert_by_key_perm. constructor; [|done].
      intros Heq. unfold bool_lt in Hlt. rewrite Heq in Hlt.
      by destruct (key x.2).
    + constructor; [by constructor|].
      constructor; [by intros _|].
      eapply Forall_impl; [exact Hxs|]. by intros z Hz _.
Qed.

Lemma sort_by_key_earlier (l : list (nat * A)) :
  StronglySorted lt (l.*1) →
  StronglySorted (earlier key) (sort_by_key (λ p, key p.2) l).
Proof.
  induction l as [|x l IH]; intros Hl; [constructor|].
  rewrite fmap_cons in Hl. cbn [sort_by_key].
  apply StronglySorted_inv in Hl as [Hl Hx].
  apply insert_by_key_earlier; [|by apply IH].
  rewrite sort_by_key_perm. rewrite Forall_forall in Hx.
  apply Forall_forall. intros y Hy. by apply Hx, list_elem_of_fmap_2.
Qed.

Lemma StronglySorted_lookup {B : Type} (R : relation B) (l : list B)
    (i j : nat) (a b : B) :
  StronglySorted R l → i < j → l !! i = Some a → l !! j = Some b → R a b.
Proof.
  intros Hl. revert i j. induction Hl as [|x l _ IH Hx]; intros i j Hij Hi Hj.
  - done.
  - destruct j as [|j]; [lia|]. simpl in Hj. destruct i as [|i]; simpl in Hi.
    + injection Hi as <-. rewrite Forall_forall in Hx.
      by eapply Hx, list_elem_of_lookup_2.
    + apply (IH i j); [lia|done..].
Qed.

Lemma seq_StronglySorted (start len : nat) : StronglySorted lt (seq start len).
Proof.
  revert start. induction len as [|len IH]; intros start; simpl; constructor.
  - apply IH.
  - apply Forall_forall. intros k Hk%elem_of_seq. lia.
Qed.

(** [sort_origin] is a rearrangement of the input positions; the record at
    output position [i] is the input record at position [sort_origin !! i];
    and two output records of one key come from input positions in the
    same order. *)
Lemma sort_origin_spec (l : list A) :
  sort_origin key l ≡ₚ seq 0 (length l) ∧
  (∀ i k, sort_origin key l !! i = Some k →
          sort_by_key key l !! i = l !! k ∧ k < length l) ∧
  (∀ i j ki kj x y,
     i < j →
     sort_origin key l !! i = Some ki → sort_origin key l !! j = Some kj →
     sort_by_key key l !! i = Some x → sort_by_key key l !! j = Some y →
     key x = key y → ki < kj).
Proof.
  unfold sort_origin.
  set (tagged := zip (seq 0 (length l)) l).
  set (sorted := sort_by_key (λ p, key p.2) tagged).
  assert (tagged.*1 = seq 0 (length l)) as Hfst.
  { apply fst_zip. by rewrite length_seq. }
  assert (tagged.*2 = l) as Hsnd.
  { apply snd_zip. by rewrite length_seq. }
  assert (sorted.*2 = sort_by_key key l) as Hsorted.
  { unfold sorted. by rewrite (sort_by_key_fmap snd), Hsnd. }
  assert (∀ k x, (k, x) ∈ sorted → l !! k = Some x) as Hmem.
  { intros k x Hkx. unfold sorted in Hkx. rewrite sort_by_key_perm in Hkx.
    apply list_elem_of_lookup in Hkx as [n Hn].
    apply lookup_zip_Some in Hn as [Hk Hx].
    apply lookup_seq in Hk as [-> _]. done. }
  split; [|split].
  - rewrite <- Hfst. unfold sorted. by rewrite sort_by_key_perm.
  - intros i k Hi. rewrite <- Hsorted, list_lookup_fmap.
    apply list_lookup_fmap_Some in Hi as ([k' x] & -> & Hi). simpl.
    rewrite Hi. simpl.
    assert (l !! k' = Some x) as Hk by by eapply Hmem, list_elem_of_lookup_2.
    split; [done|]. by eapply lookup_lt_Some.
  - intros i j ki kj x y Hij Hi Hj Hx Hy Hkey.
    rewrite <- Hsorted, list_lookup_fmap in Hx, Hy.
    apply list_lookup_fmap_Some in Hi as ([ki' x'] & -> & Hi).
    apply list_lookup_fmap_Some in Hj as ([kj' y'] & -> & Hj).
    rewrite Hi in Hx. rewrite Hj in Hy. simpl in *.
    injection Hx as ->. injection Hy as ->.
    assert (StronglySorted (earlier key) sorted) as Hss.
    { apply sort_by_key_earlier. rewrite Hfst. apply seq_StronglySorted. }
    by apply (StronglySorted_lookup _ _ i j (ki', x) (kj', y) Hss Hij Hi Hj).
Qed.

End Provenance.

(** ** The normalised record of a well-typed place *)

Lemma website_key_Yes (x : NormalizedPlace) :
  website_key x = true ↔ Has_Website x = PyStr "Yes".
Proof.
  unfold website_key, py_eq_str.
  destruct (Has_Website x) as [| | | |s| |]; try (split; discriminate).
  destruct (String.eqb_spec s "Yes"); split; congruence.
Qed.

(** The badge is always one of the two literals. *)
Lemma process_place_badge (place : pyval) (x : NormalizedPlace) :
  process_place place = Ok x →
  Has_Website x = PyStr "Yes" ∨ Has_Website x = PyStr "No".
Proof.
  intros H. destruct (process_place_Ok_dict _ _ H) as [d ->].
  rewrite process_place_dict in H. cbv zeta in H.
  apply result_bind_Ok in H as (name & _ & [= <-]). simpl.
  destruct (truthy _); auto.
Qed.

(** Lines 76, 82 and 83 on a record whose [websiteUri] is absent or a string. *)
Lemma process_place_website (d : gmap string pyval) (x : NormalizedPlace) :
  process_place (PyDict d) = Ok x →
  optional_str d "websiteUri" = true →
  (Has_Website x = PyStr "Yes" ↔
     ∃ uri, d !! "websiteUri" = Some (PyStr uri) ∧ uri ≠ "") ∧
  (∀ uri, d !! "websiteUri" = Some (PyStr uri) → uri ≠ "" →
     Has_Website x = PyStr "Yes" ∧ Website x = PyStr uri) ∧
  (d !! "websiteUri" = None ∨ d !! "websiteUri" = Some (PyStr "") →
     Has_Website x = PyStr "No" ∧ Website x = PyStr "N/A").
Proof.
  intros H Hopt. rewrite process_place_dict in H. cbv zeta in H.
  apply result_bind_Ok in H as (name & _ & [= <-]). simpl.
  apply optional_str_cases in Hopt as [Hnone|[uri Huri]].
  - rewrite Hnone. simpl. split; [|split].
    + split; [discriminate|]. by intros (uri & [=] & _).
    + discriminate.
    + done.
  - rewrite Huri. simpl. destruct (String.eqb_spec uri "") as [->|Hne]; simpl.
    + split; [|split].
      * split; [discriminate|]. by intros (uri & [= <-] & ?).
      * by intros uri [= <-] ?.
      * done.
    + split; [|split].
      * split; [by eauto|done].
      * by intros uri' [= <-] _.
      * intros [[=]|[= ->]]. done.
Qed.

(** Lines 79-84 on a well-typed record: every field is a string, and a
    missing field is its default. *)
Lemma process_place_fields (d : gmap string pyval) :
  is_RawPlace (PyDict d) = true →
  ∃ x, process_place (PyDict d) = Ok x ∧
    (∃ name address price_level has_website website,
       Name x = PyStr name ∧ Address x = PyStr address ∧
       Price_Level x = PyStr price_level ∧
       Has_Website x = PyStr has_website ∧ Website x = PyStr website) ∧
    (d !! "displayName" = None ∨
     (∃ display_name, d !! "displayName" = Some (PyDict display_name) ∧
                      display_name !! "text" = None) →
     Name x = PyStr "Unknown") ∧
    (d !! "formattedAddress" = None → Address x = PyStr "N/A") ∧
    (d !! "priceLevel" = None → Price_Level x = PyStr "N/A").
Proof.
  simpl. rewrite !andb_true_iff. intros [[[Hn Ha] Hp] Hw].
  rewrite process_place_dict. cbv zeta.
  apply optional_str_cases in Ha, Hp, Hw.
  assert (∃ name, py_get (default (PyDict ∅) (d !! "displayName")) "text"
                    (PyStr "Unknown") = Ok (PyStr name) ∧
          (d !! "displayName" = None ∨
           (∃ display_name, d !! "displayName" = Some (PyDict display_name) ∧
                            display_name !! "text" = None) →
           name = "Unknown")) as (name & -> & Hname).
  { destruct (d !! "displayName") as [[| | | | | |dn]|] eqn:Edn;
      try discriminate; simpl.
    - apply optional_str_cases in Hn as [Hnone|[s Hs]].
      + rewrite Hnone. simpl. eauto.
      + rewrite Hs. simpl. exists s. split; [done|].
        intros [[=]|(dn' & [= <-] & Hdn')]. congruence.
    - rewrite lookup_empty. simpl. eauto. }
  simpl. eexists. split; [done|]. simpl.
  split; [|split; [|split]].
  - destruct Ha as [->|[a ->]], Hp as [->|[p ->]], Hw as [->|[w ->]]; simpl;
      try destruct (negb (String.eqb w "")); eauto 10.
  - intros H. by rewrite (Hname H).
  - by intros ->.
  - by intros ->.
Qed.

(** *** Records that are not RawPlace records

    The typing of RawPlace matters: the code tests truth, not type, and
    [.get] falls back on a default only for a missing key. *)

(** A [websiteUri] that is a number counts as a website. *)
Example website_number :
  process_place (PyDict {["websiteUri" := PyInt 5]}) =
    Ok {| Name := PyStr "Unknown"; Address := PyStr "N/A";
          Price_Level := PyStr "N/A"; Has_Website := PyStr "Yes";
          Website := PyInt 5 |}.
Proof. reflexivity. Qed.

(** An address that is [null] stays [None]. *)
Example address_null :
  process_place (PyDict {["formattedAddress" := PyNone]}) =
    Ok {| Name := PyStr "Unknown"; Address := PyNone;
          Price_Level := PyStr "N/A"; Has_Website := PyStr "No";
          Website := PyStr "N/A" |}.
Proof. reflexivity. Qed.

(** A display name that is not a record makes the loop raise. *)
Example display_name_string :
  process_places [cafe_a; PyDict {["displayName" := PyStr "Cafe C"]}] =
    Raise OperandError.
Proof. reflexivity. Qed.

(** ** The query executor *)

(** [search_places], case by case: what the request meets decides the pair
    returned; the one request is recorded whatever happens. *)
Lemma search_places_run (query api_key : string) (w : world) :
  search_places query api_key w =
    (match network w (length (sent w)) (places_request query api_key) with
     | Ok response =>
         if (status_code response =? 200)%Z then
           match json response with
           | Ok result => Ok (result, None)
           | Raise (RequestException msg) => Ok (PyNone, Some (transport_error_msg msg))
           | Raise e => Raise e
           end
         else Ok (PyNone, Some (request_failed_msg (status_code response)
                                                   (text response)))
     | Raise (RequestException msg) => Ok (PyNone, Some (transport_error_msg msg))
     | Raise e => Raise e
     end,
     record_request (places_request query api_key) w).
Proof.
  unfold search_places, try_except_RequestException, ST_bind, requests_post, ST_lift, ST_ret.
  destruct (network w _ _) as [response|[msg| |msg]]; try reflexivity.
  destruct (status_code response =? 200)%Z; try reflexivity.
  destruct (json response) as [result|[msg| |msg]]; reflexivity.
Qed.

(** No retry: every call sends exactly one request. *)
Lemma search_places_sent (query api_key : string) (w : world) :
  sent (search_places query api_key w).2 = sent w ++ [places_request query api_key].
Proof. by rewrite search_places_run. Qed.

(** *** The error descriptions determine what they carry *)

Lemma append_prefix_inj (p a b : string) : p +:+ a = p +:+ b → a = b.
Proof. induction p as [|c p IH]; simpl; [done|]. intros [= H]. by apply IH. Qed.

(** A decimal numeral holds no line break. *)
Lemma string_of_uint_get (d : Decimal.uint) (n : nat) :
  String.get n (NilEmpty.string_of_uint d) ≠ Some "010"%char.
Proof.
  revert n. induction d as [|d IH|d IH|d IH|d IH|d IH|d IH|d IH|d IH|d IH|d IH];
    intros [|n]; simpl; solve [discriminate | apply IH].
Qed.

Lemma str_int_get (z : Z) (n : nat) :
  String.get n (str_int z) ≠ Some "010"%char.
Proof.
  unfold str_int. destruct (Z.to_int z) as [d|d]; simpl.
  - apply string_of_uint_get.
  - destruct n as [|n]; [discriminate|]. apply string_of_uint_get.
Qed.

Lemma str_int_inj (a b : Z) : str_int a = str_int b → a = b.
Proof.
  unfold str_int. intros H. apply DecimalZ.to_int_inj.
  assert (Some (Z.to_int a) = Some (Z.to_int b)) as [= ->]; [|done].
  by rewrite <- !NilEmpty.isi, H.
Qed.

Lemma append_cons (c : ascii) (s t : string) :
  String c s +:+ t = String c (s +:+ t).
Proof. reflexivity. Qed.

Lemma append_nil (t : string) : "" +:+ t = t.
Proof. reflexivity. Qed.

(** Two texts that agree up to and after their first line break agree on
    both sides of it. *)
Lemma append_newline_inj (s1 s2 r1 r2 : string) :
  (∀ n, String.get n s1 ≠ Some "010"%char) →
  (∀ n, String.get n s2 ≠ Some "010"%char) →
  s1 +:+ newline +:+ r1 = s2 +:+ newline +:+ r2 → s1 = s2 ∧ r1 = r2.
Proof.
  unfold newline.
  revert s2. induction s1 as [|c1 s1 IH]; intros [|c2 s2] H1 H2;
    rewrite ?append_cons, ?append_nil.
  - by intros [= ->].
  - intros [= <- _]. by destruct (H2 0).
  - intros [= -> _]. by destruct (H1 0).
  - intros [= -> Htl].
    destruct (IH s2) as [-> ->]; [..|done].
    + intros n. apply (H1 (S n)).
    + intros n. apply (H2 (S n)).
    + by rewrite ?append_cons, ?append_nil.
Qed.

(** The description of a failed request determines the status code and the
    raw body it was built from. *)
Lemma request_failed_msg_inj (s s' : Z) (b b' : string) :
  request_failed_msg s b = request_failed_msg s' b' → s = s' ∧ b = b'.
Proof.
  unfold request_failed_msg. intros H%append_prefix_inj.
  apply append_newline_inj in H as [Hs Hb]; try apply str_int_get.
  split; [by apply str_int_inj|by apply append_prefix_inj in Hb].
Qed.

Lemma transport_error_msg_inj (m m' : string) :
  transport_error_msg m = transport_error_msg m' → m = m'.
Proof. apply append_prefix_inj. Qed.

(** The two kinds of description are told apart by their first letter. *)
Lemma request_failed_not_transport (s : Z) (b m : string) :
  request_failed_msg s b ≠ transport_error_msg m.
Proof. discriminate. Qed.

(** ** The handler of the search button *)

Lemma sends_nothing_ret {A : Type} (a : A) : sends_nothing (ST_ret a).
Proof. by intros w. Qed.

Lemma sends_nothing_lift {A : Type} (r : result A) : sends_nothing (ST_lift r).
Proof. by intros w. Qed.

Lemma sends_nothing_st (c : st_call) : sends_nothing (st c).
Proof. by intros w. Qed.

Lemma sends_nothing_bind {A B : Type} (m : M A) (f : A → M B) :
  sends_nothing m → (∀ a, sends_nothing (f a)) → sends_nothing (ST_bind m f).
Proof.
  intros Hm Hf w. unfold ST_bind. specialize (Hm w).
  destruct (m w) as [[a|e] w']; simpl in *; [|done].
  by rewrite Hf.
Qed.

Create HintDb sends.
#[local] Hint Resolve sends_nothing_ret sends_nothing_lift sends_nothing_st
  sends_nothing_bind : sends.

(** Showing the result draws on the page and sends nothing. *)
Lemma show_result_sends_nothing (search_query : string) (result : pyval) :
  sends_nothing (show_result search_query result).
Proof.
  unfold show_result.
  apply sends_nothing_bind; [auto with sends|]. intros [|]; [|auto with sends].
  apply sends_nothing_bind; [auto with sends|]. intros places.
  destruct (truthy places); [|auto with sends].
  repeat (apply sends_nothing_bind; [auto with sends|]; intros ?).
  auto with sends.
Qed.

(** With a query and a key the handler calls the executor once. *)
Lemma handler_sends_once (search_query api_key : string) (w : world) :
  search_query ≠ "" → api_key ≠ "" →
  sent (handler true search_query api_key w).2
    = sent w ++ [places_request search_query api_key].
Proof.
  intros Hq%truthy_PyStr Hk%truthy_PyStr. unfold handler. rewrite Hq, Hk. simpl.
  unfold ST_bind at 1. simpl. unfold ST_bind.
  rewrite search_places_run.
  set (w1 := record_request _ _).
  assert (sent w1 = sent w ++ [places_request search_query api_key]) as Hw1 by done.
  clearbody w1.
  destruct (match network _ _ _ with Ok _ => _ | Raise _ => _ end)
    as [[result error]|e]; [|done].
  destruct (truthy_error error); [done|].
  by rewrite show_result_sends_nothing.
Qed.

(** A success without places is shown as a warning, not as an error. *)
Example handler_no_places_key :
  handler true "cafe" "key" (world_of (Ok no_places_key)) =
    (Ok tt,
     {| network := λ _ _, Ok no_places_key;
        sent := [places_request "cafe" "key"];
        page := [St_spinner ("Searching for " +:+ dquote +:+ "cafe" +:+ dquote +:+ "...");
                 St_warning "No results returned from the API"] |}).
Proof. reflexivity. Qed.

Example handler_empty_places :
  handler true "cafe" "key" (world_of (Ok empty_places)) =
    (Ok tt,
     {| network := λ _ _, Ok empty_places;
        sent := [places_request "cafe" "key"];
        page := [St_spinner ("Searching for " +:+ dquote +:+ "cafe" +:+ dquote +:+ "...");
                 St_warning "No results found for 'cafe'"] |}).
Proof. reflexivity. Qed.

(** The pair [(None, None)] of a [null] body is shown the same way. *)
Example handler_null_body :
  page (handler true "cafe" "key" (world_of (Ok null_body))).2 =
    [St_spinner ("Searching for " +:+ dquote +:+ "cafe" +:+ dquote +:+ "...");
     St_warning "No results returned from the API"].
Proof. reflexivity. Qed.

(** ** The store-level code *)

(** *** Reading trees through the store *)

Lemma option_Forall2_impl {A B : Type} (R R' : A → B → Prop)
    (mx : option A) (my : option B) :
  option_Forall2 R mx my → (∀ x y, R x y → R' x y) → option_Forall2 R' mx my.
Proof. destruct 1; constructor; auto. Qed.

Lemma denotes_within_deeper (n n' : nat) (h : gmap loc obj) (v : val) (t : pyval) :
  n ≤ n' → denotes_within n h v t → denotes_within n' h v t.
Proof.
  revert n' v t. induction n as [|n IH]; intros [|n'] v t Hle H; try done; [lia|].
  assert (n ≤ n') as Hle' by lia.
  destruct v, t; simpl in *; try done.
  - destruct H as (items & Hl & Hitems). exists items. split; [done|].
    eapply Forall2_impl; [exact Hitems|]. intros ??; by apply IH.
  - destruct H as (entries & Hl & Hentries). exists entries. split; [done|].
    intros k. eapply option_Forall2_impl; [apply Hentries|].
    intros ??; by apply IH.
Qed.

(** A tree read through a store is still read through a larger store. *)
Lemma denotes_within_weaken (n : nat) (h h' : gmap loc obj) (v : val) (t : pyval) :
  h ⊆ h' → denotes_within n h v t → denotes_within n h' v t.
Proof.
  intros Hsub. revert v t. induction n as [|n IH]; intros v t H; [done|].
  destruct v, t; simpl in *; try done.
  - destruct H as (items & Hl & Hitems). exists items.
    split; [by eapply lookup_weaken|].
    eapply Forall2_impl; [exact Hitems|]. intros ??; by apply IH.
  - destruct H as (entries & Hl & Hentries). exists entries.
    split; [by eapply lookup_weaken|].
    intros k. eapply option_Forall2_impl; [apply Hentries|].
    intros ??; by apply IH.
Qed.

Lemma denotes_weaken (h h' : gmap loc obj) (v : val) (t : pyval) :
  h ⊆ h' → denotes h v t → denotes h' v t.
Proof. intros Hsub [n H]. exists n. by eapply denotes_within_weaken. Qed.

(** Finitely many readings fit within one depth. *)
Lemma denotes_Forall2_within (h : gmap loc obj) (vs : list val) (ts : list pyval) :
  Forall2 (denotes h) vs ts → ∃ n, Forall2 (denotes_within n h) vs ts.
Proof.
  induction 1 as [|v t vs ts [n Hn] _ [m Hm]].
  - exists 0. constructor.
  - exists (n `max` m). constructor.
    + eapply denotes_within_deeper; [|exact Hn]. lia.
    + eapply Forall2_impl; [exact Hm|].
      intros ?? H. eapply denotes_within_deeper; [|exact H]. lia.
Qed.

Lemma denotes_list (h : gmap loc obj) (l : loc) (items : list val) (ts : list pyval) :
  h !! l = Some (OList items) → Forall2 (denotes h) items ts →
  denotes h (VRef l) (PyList ts).
Proof.
  intros Hl [n Hn]%denotes_Forall2_within. exists (S n). simpl. eauto.
Qed.

Lemma denotes_list_inv (h : gmap loc obj) (v : val) (ts : list pyval) :
  denotes h v (PyList ts) →
  ∃ l items, v = VRef l ∧ h !! l = Some (OList items) ∧ Forall2 (denotes h) items ts.
Proof.
  intros [[|n] H]; [done|]. destruct v; simpl in H; try done.
  destruct H as (items & Hl & Hitems). exists l, items. repeat split; [done|].
  eapply Forall2_impl; [exact Hitems|]. intros ???. by exists n.
Qed.

Lemma denotes_dict_inv (h : gmap loc obj) (v : val) (d : gmap string pyval) :
  denotes h v (PyDict d) →
  ∃ l entries, v = VRef l ∧ h !! l = Some (ODict entries) ∧
               ∀ k, option_Forall2 (denotes h) (entry k entries) (d !! k).
Proof.
  intros [[|n] H]; [done|]. destruct v; simpl in H; try done.
  destruct H as (entries & Hl & Hentries). exists l, entries. repeat split; [done|].
  intros k. eapply option_Forall2_impl; [apply Hentries|]. intros ???. by exists n.
Qed.

Lemma denotes_str (h : gmap loc obj) (s : string) : denotes h (VStr s) (PyStr s).
Proof. by exists 1. Qed.

Lemma denotes_bool (h : gmap loc obj) (b : bool) : denotes h (VBool b) (PyBool b).
Proof. by exists 1. Qed.

Lemma denotes_str_inv (h : gmap loc obj) (v : val) (s : string) :
  denotes h v (PyStr s) → v = VStr s.
Proof.
  intros [[|n] H]; [done|]. destruct v; simpl in H; try done. by subst.
Qed.

Lemma denotes_str_inv_l (h : gmap loc obj) (s : string) (t : pyval) :
  denotes h (VStr s) t → t = PyStr s.
Proof.
  intros [[|n] H]; [done|]. destruct t; simpl in H; try done. by subst.
Qed.

(** *** Running effectful code step by step *)

Lemma ST_bind_Ok {S A B : Type} (m : ST S A) (f : A → ST S B) (s s' : S) (a : A) :
  m s = (Ok a, s') → ST_bind m f s = f a s'.
Proof. unfold ST_bind. by intros ->. Qed.

Lemma ST_bind_Raise {S A B : Type} (m : ST S A) (f : A → ST S B) (s s' : S) (e : exn) :
  m s = (Raise e, s') → ST_bind m f s = (Raise e, s').
Proof. unfold ST_bind. by intros ->. Qed.

(** *** The operations of the store-level code compute what the
    operations on trees compute, and leave the state as it is *)

Section Operations.
Context (h0 : gmap loc obj) (s : machine) (Hsub : h0 ⊆ objects s).

Lemma read_in (l : loc) (o : obj) : h0 !! l = Some o → read l s = (Ok o, s).
Proof.
  intros Hl. unfold read. by rewrite (lookup_weaken _ _ _ _ Hl Hsub).
Qed.

Lemma py_eq_str_refines (k : string) (v : val) (t : pyval) :
  denotes h0 v t → Store.py_eq_str v k = py_eq_str t k.
Proof.
  intros [[|fuel] H]; [done|]. destruct v, t; simpl in H; try done. by subst.
Qed.

Lemma truthy_refines (v : val) (t : pyval) :
  denotes h0 v t → Store.truthy v s = (Ok (truthy t), s).
Proof.
  intros H. destruct t.
  - destruct H as [[|fuel] H]; [done|]. by destruct v.
  - destruct H as [[|fuel] H]; [done|]. destruct v; simpl in H; try done. by subst.
  - destruct H as [[|fuel] H]; [done|]. destruct v; simpl in H; try done. by subst.
  - destruct H as [[|fuel] H]; [done|]. destruct v; simpl in H; try done. by subst.
  - apply denotes_str_inv in H as ->. done.
  - apply denotes_list_inv in H as (l' & items & -> & Hl & Hitems).
    simpl. rewrite (ST_bind_Ok _ _ _ _ _ (read_in _ _ Hl)).
    unfold ST_ret. do 3 f_equal.
    by destruct Hitems.
  - apply denotes_dict_inv in H as (l' & entries & -> & Hl & Hentries).
    simpl. rewrite (ST_bind_Ok _ _ _ _ _ (read_in _ _ Hl)).
    unfold ST_ret. do 3 f_equal.
    destruct entries as [|[k0 v0] entries].
    + assert (d = ∅) as ->.
      { apply map_empty. intros k. specialize (Hentries k). by inversion Hentries. }
      done.
    + rewrite bool_decide_eq_false_2 by done.
      rewrite bool_decide_eq_false_2; [done|].
      intros Hsize%map_size_empty_iff. subst d.
      specialize (Hentries k0). simpl in Hentries. rewrite String.eqb_refl in Hentries.
      rewrite lookup_empty in Hentries. inversion Hentries.
Qed.

Lemma py_in_refines (k : string) (v : val) (t : pyval) :
  denotes h0 v t → Store.py_in k v s = (py_in k t, s).
Proof.
  intros H. destruct t.
  - destruct H as [[|fuel] H]; [done|]. by destruct v.
  - destruct H as [[|fuel] H]; [done|]. by destruct v.
  - destruct H as [[|fuel] H]; [done|]. by destruct v.
  - destruct H as [[|fuel] H]; [done|]. by destruct v.
  - apply denotes_str_inv in H as ->. done.
  - apply denotes_list_inv in H as (l' & items & -> & Hl & Hitems).
    simpl. rewrite (ST_bind_Ok _ _ _ _ _ (read_in _ _ Hl)).
    unfold ST_ret. do 2 f_equal. clear Hl.
    induction Hitems as [|x y items ts Hxy _ IH]; [done|].
    simpl. by rewrite IH, (py_eq_str_refines k x y).
  - apply denotes_dict_inv in H as (l' & entries & -> & Hl & Hentries).
    simpl. rewrite (ST_bind_Ok _ _ _ _ _ (read_in _ _ Hl)).
    unfold ST_ret. do 2 f_equal.
    specialize (Hentries k). apply bool_decide_ext.
    destruct Hentries; split; intros [??]; by eauto.
Qed.

Lemma py_getitem_refines (k : string) (v : val) (t : pyval) :
  denotes h0 v t →
  match py_getitem t k with
  | Ok t' => ∃ v', Store.py_getitem v k s = (Ok v', s) ∧ denotes h0 v' t'
  | Raise e => Store.py_getitem v k s = (Raise e, s)
  end.
Proof.
  intros H. destruct t.
  - destruct H as [[|fuel] H]; [done|]. by destruct v.
  - destruct H as [[|fuel] H]; [done|]. by destruct v.
  - destruct H as [[|fuel] H]; [done|]. by destruct v.
  - destruct H as [[|fuel] H]; [done|]. by destruct v.
  - apply denotes_str_inv in H as ->. done.
  - apply denotes_list_inv in H as (l' & items & -> & Hl & Hitems).
    simpl. by rewrite (ST_bind_Ok _ _ _ _ _ (read_in _ _ Hl)).
  - apply denotes_dict_inv in H as (l' & entries & -> & Hl & Hentries).
    simpl. rewrite (ST_bind_Ok _ _ _ _ _ (read_in _ _ Hl)).
    specialize (Hentries k). destruct Hentries as [v' t' Hvt|]; [|done].
    by exists v'.
Qed.

(** [.get]: the entry when there is one, else the default passed. *)
Lemma py_get_refines (k : string) (v dv : val) (t dt : pyval) :
  denotes h0 v t →
  match py_get t k dt with
  | Ok t' => ∃ v', Store.py_get v k dv s = (Ok v', s) ∧
                   (denotes h0 v' t' ∨ (v' = dv ∧ t' = dt))
  | Raise e => Store.py_get v k dv s = (Raise e, s)
  end.
Proof.
  intros H. destruct t.
  - destruct H as [[|fuel] H]; [done|]. by destruct v.
  - destruct H as [[|fuel] H]; [done|]. by destruct v.
  - destruct H as [[|fuel] H]; [done|]. by destruct v.
  - destruct H as [[|fuel] H]; [done|]. by destruct v.
  - apply denotes_str_inv in H as ->. done.
  - apply denotes_list_inv in H as (l' & items & -> & Hl & Hitems).
    simpl. by rewrite (ST_bind_Ok _ _ _ _ _ (read_in _ _ Hl)).
  - apply denotes_dict_inv in H as (l' & entries & -> & Hl & Hentries).
    simpl. rewrite (ST_bind_Ok _ _ _ _ _ (read_in _ _ Hl)).
    specialize (Hentries k). destruct Hentries as [v' t' Hvt|]; simpl; eauto.
Qed.

(** Line 76 *)
Lemma has_website_refines (place : val) (t : pyval) :
  denotes h0 place t →
  match has_website_of t with
  | Ok t' =>
      ∃ v', (present <~ Store.py_in "websiteUri" place;
             if present then Store.py_getitem place "websiteUri"
             else ST_ret (VBool false)) s = (Ok v', s) ∧
            denotes h0 v' t'
  | Raise e =>
      (present <~ Store.py_in "websiteUri" place;
       if present then Store.py_getitem place "websiteUri"
       else ST_ret (VBool false)) s = (Raise e, s)
  end.
Proof.
  intros H. unfold has_website_of.
  pose proof (py_in_refines "websiteUri" _ _ H) as Hin.
  destruct (py_in "websiteUri" t) as [present|e]; simpl.
  - rewrite (ST_bind_Ok _ _ _ _ _ Hin). destruct present.
    + apply py_getitem_refines, H.
    + exists (VBool false). split; [done|apply denotes_bool].
  - by rewrite (ST_bind_Raise _ _ _ _ _ Hin).
Qed.

End Operations.

(** *** One turn of the loop *)

Lemma unchanged_except_refl (pl : loc) (s : machine) : unchanged_except pl s s.
Proof. by split. Qed.

Lemma unchanged_except_trans (pl : loc) (s1 s2 s3 : machine) :
  unchanged_except pl s1 s2 → unchanged_except pl s2 s3 → unchanged_except pl s1 s3.
Proof.
  intros [Ho1 Hl1] [Ho2 Hl2]. split; [congruence|].
  intros l Hne Hl. rewrite Hl2, Hl1; [done..|]. by rewrite Hl1.
Qed.

(** What was read through [h0] before is read through [h0] after. *)
Lemma unchanged_except_submap (h0 : gmap loc obj) (pl : loc) (s s' : machine) :
  h0 !! pl = None → h0 ⊆ objects s → unchanged_except pl s s' → h0 ⊆ objects s'.
Proof.
  intros Hpl Hsub [_ Hl]. apply map_subseteq_spec. intros l o Hlo.
  assert (l ≠ pl) as Hne by congruence.
  pose proof (lookup_weaken _ _ _ _ Hlo Hsub) as Hs.
  rewrite Hl; [done..|]. by rewrite Hs.
Qed.

Lemma record_at_unchanged (h0 : gmap loc obj) (pl : loc) (s s' : machine)
    (v : val) (x : NormalizedPlace) :
  v ≠ VRef pl → unchanged_except pl s s' →
  record_at h0 (objects s) v x → record_at h0 (objects s') v x.
Proof.
  intros Hne [_ Hl] (d & n & a & p & y & w & -> & Hd & H).
  exists d, n, a, p, y, w. split; [done|]. split; [|done].
  rewrite Hl; [done|congruence|]. by rewrite Hd.
Qed.

Lemma alloc_run (o : obj) (s : machine) :
  alloc o s = (Ok (fresh (dom (objects s))),
               {| objects := <[fresh (dom (objects s)) := o]> (objects s);
                  outside := outside s |}).
Proof. reflexivity. Qed.

Lemma fresh_unused (s : machine) : objects s !! fresh (dom (objects s)) = None.
Proof. apply not_elem_of_dom, is_fresh. Qed.

(** [.get] with a string default. *)
Lemma py_get_str_refines (h0 : gmap loc obj) (s : machine) (k dflt : string)
    (v : val) (t : pyval) :
  h0 ⊆ objects s → denotes h0 v t →
  match py_get t k (PyStr dflt) with
  | Ok t' => ∃ v', Store.py_get v k (VStr dflt) s = (Ok v', s) ∧ denotes h0 v' t'
  | Raise e => Store.py_get v k (VStr dflt) s = (Raise e, s)
  end.
Proof.
  intros Hsub H.
  pose proof (py_get_refines h0 s Hsub k v (VStr dflt) t (PyStr dflt) H) as Hget.
  destruct (py_get t k (PyStr dflt)) as [t'|e]; [|done].
  destruct Hget as (v' & Hrun & [Hv'|[-> ->]]); eexists; (split; [exact Hrun|]);
    [done|apply denotes_str].
Qed.

(** Lines 79: the name, looked up in the display name or in the fresh
    empty dict that stands in for a missing one. *)
Lemma name_refines (h0 : gmap loc obj) (s : machine) (empty : loc)
    (display_name : val) (t : pyval) :
  h0 ⊆ objects s → objects s !! empty = Some (ODict []) →
  denotes h0 display_name t ∨ (display_name = VRef empty ∧ t = PyDict ∅) →
  match py_get t "text" (PyStr "Unknown") with
  | Ok t' => ∃ v', Store.py_get display_name "text" (VStr "Unknown") s = (Ok v', s) ∧
                   denotes h0 v' t'
  | Raise e => Store.py_get display_name "text" (VStr "Unknown") s = (Raise e, s)
  end.
Proof.
  intros Hsub Hempty [H|[-> ->]].
  - by apply py_get_str_refines.
  - simpl. rewrite lookup_empty. simpl. exists (VStr "Unknown").
    split; [|apply denotes_str].
    unfold ST_bind, read. by rewrite Hempty.
Qed.

(** One turn of the loop does what [process_place] does on the tree the
    place denotes: it appends a reference to a new record, or raises the
    same exception; it touches nothing but the list it appends to and
    objects it has created itself. *)
Lemma process_place_refines (h0 : gmap loc obj) (pl : loc) (s : machine)
    (acc : list val) (place : val) (t : pyval) :
  h0 ⊆ objects s → h0 !! pl = None →
  objects s !! pl = Some (OList acc) →
  denotes h0 place t →
  ∃ s', unchanged_except pl s s' ∧
    match process_place t with
    | Ok x =>
        Store.process_place pl place s = (Ok tt, s') ∧
        ∃ v, objects s' !! pl = Some (OList (acc ++ [v])) ∧
             v ≠ VRef pl ∧ record_at h0 (objects s') v x
    | Raise e =>
        Store.process_place pl place s = (Raise e, s') ∧
        objects s' !! pl = Some (OList acc)
    end.
Proof.
  intros Hsub Hfresh Hpl Hplace.
  unfold Store.process_place, process_place.
  (* line 76 *)
  pose proof (has_website_refines h0 s Hsub place t Hplace) as Hhw.
  destruct (has_website_of t) as [thw|e]; cbn [result_bind].
  2:{ exists s. split; [apply unchanged_except_refl|].
      by rewrite (ST_bind_Raise _ _ _ _ _ Hhw). }
  destruct Hhw as (vhw & Hrun & Hhw).
  rewrite (ST_bind_Ok _ _ _ _ _ Hrun). clear Hrun.
  (* the empty dict of line 79 *)
  rewrite (ST_bind_Ok _ _ _ _ _ (alloc_run _ _)).
  pose proof (fresh_unused s) as Hempty.
  set (empty := fresh (dom (objects s))) in *.
  set (s1 := {| objects := <[empty := ODict []]> (objects s); outside := outside s |}).
  assert (empty ≠ pl) as Hne1 by congruence.
  assert (unchanged_except pl s s1) as Hs1.
  { split; [done|]. intros l _ [o Hl]. simpl.
    rewrite lookup_insert_ne; [done|congruence]. }
  assert (h0 ⊆ objects s1) as Hsub1.
  { etrans; [exact Hsub|]. by apply insert_subseteq. }
  assert (objects s1 !! pl = Some (OList acc)) as Hpl1.
  { simpl. by rewrite lookup_insert_ne. }
  assert (objects s1 !! empty = Some (ODict [])) as Hempty1.
  { simpl. by rewrite lookup_insert_eq. }
  clearbody s1.
  (* display name *)
  pose proof (py_get_refines h0 s1 Hsub1 "displayName" place (VRef empty) t
                (PyDict ∅) Hplace) as Hdn.
  destruct (py_get t "displayName" (PyDict ∅)) as [tdn|e]; cbn [result_bind].
  2:{ exists s1. split; [done|]. by rewrite (ST_bind_Raise _ _ _ _ _ Hdn). }
  destruct Hdn as (vdn & Hrun & Hdn).
  rewrite (ST_bind_Ok _ _ _ _ _ Hrun). clear Hrun.
  (* name *)
  pose proof (name_refines h0 s1 empty vdn tdn Hsub1 Hempty1 Hdn) as Hname.
  destruct (py_get tdn "text" (PyStr "Unknown")) as [tname|e]; cbn [result_bind].
  2:{ exists s1. split; [done|]. by rewrite (ST_bind_Raise _ _ _ _ _ Hname). }
  destruct Hname as (vname & Hrun & Hname).
  rewrite (ST_bind_Ok _ _ _ _ _ Hrun). clear Hrun.
  (* address *)
  pose proof (py_get_str_refines h0 s1 "formattedAddress" "N/A" place t Hsub1 Hplace)
    as Haddr.
  destruct (py_get t "formattedAddress" (PyStr "N/A")) as [taddr|e]; cbn [result_bind].
  2:{ exists s1. split; [done|]. by rewrite (ST_bind_Raise _ _ _ _ _ Haddr). }
  destruct Haddr as (vaddr & Hrun & Haddr).
  rewrite (ST_bind_Ok _ _ _ _ _ Hrun). clear Hrun.
  (* price level *)
  pose proof (py_get_str_refines h0 s1 "priceLevel" "N/A" place t Hsub1 Hplace)
    as Hprice.
  destruct (py_get t "priceLevel" (PyStr "N/A")) as [tprice|e]; cbn [result_bind].
  2:{ exists s1. split; [done|]. by rewrite (ST_bind_Raise _ _ _ _ _ Hprice). }
  destruct Hprice as (vprice & Hrun & Hprice).
  rewrite (ST_bind_Ok _ _ _ _ _ Hrun). clear Hrun.
  (* the two tests of [has_website] *)
  rewrite (ST_bind_Ok _ _ _ _ _ (truthy_refines h0 s1 Hsub1 vhw thw Hhw)).
  rewrite (ST_bind_Ok _ _ _ _ _ (truthy_refines h0 s1 Hsub1 vhw thw Hhw)).
  (* website *)
  assert (match (if truthy thw then py_get t "websiteUri" (PyStr "N/A")
                 else Ok (PyStr "N/A")) with
          | Ok t' => ∃ v', (if truthy thw
                            then Store.py_get place "websiteUri" (VStr "N/A")
                            else ST_ret (VStr "N/A")) s1 = (Ok v', s1) ∧
                           denotes h0 v' t'
          | Raise e => (if truthy thw
                        then Store.py_get place "websiteUri" (VStr "N/A")
                        else ST_ret (VStr "N/A")) s1 = (Raise e, s1)
          end) as Hweb.
  { destruct (truthy thw).
    - by apply py_get_str_refines.
    - exists (VStr "N/A"). split; [done|apply denotes_str]. }
  destruct (if truthy thw then _ else _) as [tweb|e]; cbn [result_bind].
  2:{ exists s1. split; [done|]. by rewrite (ST_bind_Raise _ _ _ _ _ Hweb). }
  destruct Hweb as (vweb & Hrun & Hweb).
  rewrite (ST_bind_Ok _ _ _ _ _ Hrun). clear Hrun.
  (* the record, and its place in the list *)
  rewrite (ST_bind_Ok _ _ _ _ _ (alloc_run _ _)).
  pose proof (fresh_unused s1) as Hd.
  set (d := fresh (dom (objects s1))) in *.
  assert (d ≠ pl) as Hne2 by congruence.
  unfold Store.append, ST_bind, read, write. simpl.
  rewrite lookup_insert_ne by done. rewrite Hpl1.
  eexists. split; [|split; [reflexivity|]].
  - eapply unchanged_except_trans; [exact Hs1|].
    split; [done|]. intros l Hl [o Ho]. simpl.
    rewrite lookup_insert_ne by done. rewrite lookup_insert_ne; [done|congruence].
  - exists (VRef d). simpl. rewrite lookup_insert_eq.
    split; [done|]. split; [congruence|].
    exists d, vname, vaddr, vprice, (if truthy thw then "Yes" else "No"), vweb.
    split; [done|]. split.
    { rewrite lookup_insert_ne by done. by rewrite lookup_insert_eq. }
    by repeat split.
Qed.

(** *** The loop *)

Lemma for_each_refines (h0 : gmap loc obj) (pl : loc)
    (items : list val) (ts : list pyval) :
  h0 !! pl = None →
  Forall2 (denotes h0) items ts →
  ∀ (s : machine) (acc_v : list val) (acc : list NormalizedPlace),
    h0 ⊆ objects s →
    objects s !! pl = Some (OList acc_v) →
    Forall2 (λ v x, v ≠ VRef pl ∧ record_at h0 (objects s) v x) acc_v acc →
    ∃ s', unchanged_except pl s s' ∧
      match process_places_from acc ts with
      | Ok out =>
          Store.for_each items (Store.process_place pl) s = (Ok tt, s') ∧
          ∃ out_v, objects s' !! pl = Some (OList out_v) ∧
                   Forall2 (λ v x, v ≠ VRef pl ∧ record_at h0 (objects s') v x) out_v out
      | Raise e =>
          Store.for_each items (Store.process_place pl) s = (Raise e, s')
      end.
Proof.
  intros Hfresh Hitems.
  induction Hitems as [|place t items ts Hplace _ IH]; intros s acc_v acc Hsub Hpl Hacc.
  - exists s. split; [apply unchanged_except_refl|]. simpl. eauto.
  - cbn [process_places_from Store.for_each].
    destruct (process_place_refines h0 pl s acc_v place t Hsub Hfresh Hpl Hplace)
      as (s1 & Hs1 & Hturn).
    destruct (process_place t) as [x|e]; cbn [result_bind].
    + destruct Hturn as (Hrun & v & Hpl1 & Hv & Hrec).
      rewrite (ST_bind_Ok _ _ _ _ _ Hrun).
      destruct (IH s1 (acc_v ++ [v]) (acc ++ [x])) as (s2 & Hs2 & Hrest).
      * by eapply unchanged_except_submap.
      * done.
      * apply Forall2_app; [|by repeat constructor].
        eapply Forall2_impl; [exact Hacc|].
        intros v' x' [Hv' Hrec']. split; [done|]. by eapply record_at_unchanged.
      * exists s2. split; [by eapply unchanged_except_trans|done].
    + destruct Hturn as [Hrun _]. exists s1. split; [done|].
      by rewrite (ST_bind_Raise _ _ _ _ _ Hrun).
Qed.

(** *** The sort in place *)

Lemma website_key_refines (h0 : gmap loc obj) (s : machine) (v : val)
    (x : NormalizedPlace) :
  record_at h0 (objects s) v x →
  Store.website_key v s = (Ok (website_key x), s).
Proof.
  intros (d & n & a & p & y & w & -> & Hd & _ & _ & _ & Hy & _).
  unfold Store.website_key, Store.py_getitem, ST_bind, read, website_key.
  rewrite Hd, Hy. reflexivity.
Qed.

Lemma map_each_website_key (h0 : gmap loc obj) (pl : loc) (s : machine)
    (vs : list val) (xs : list NormalizedPlace) :
  Forall2 (λ v x, v ≠ VRef pl ∧ record_at h0 (objects s) v x) vs xs →
  Store.map_each Store.website_key vs s = (Ok (website_key <$> xs), s).
Proof.
  induction 1 as [|v x vs xs [_ Hvx] _ IH]; [done|].
  cbn [Store.map_each].
  rewrite (ST_bind_Ok _ _ _ _ _ (website_key_refines _ _ _ _ Hvx)).
  by rewrite (ST_bind_Ok _ _ _ _ _ IH).
Qed.

(** Two lists related element by element, with equal keys, are sorted
    into two lists related element by element. *)
Lemma insert_by_key_Forall2 {A B : Type} (R : A → B → Prop)
    (keyA : A → bool) (keyB : B → bool) (a : A) (b : B) (l1 : list A) (l2 : list B) :
  R a b ∧ keyA a = keyB b →
  Forall2 (λ a b, R a b ∧ keyA a = keyB b) l1 l2 →
  Forall2 (λ a b, R a b ∧ keyA a = keyB b)
    (insert_by_key keyA a l1) (insert_by_key keyB b l2).
Proof.
  intros Hab Hl. induction Hl as [|a' b' l1 l2 Hab' Hl IH]; simpl.
  - constructor; [done|constructor].
  - destruct Hab as [? Hk], Hab' as [? Hk']. rewrite Hk, Hk'.
    destruct (bool_lt _ _).
    + constructor; [done|]. apply IH.
    + constructor; [done|]. by constructor.
Qed.

Lemma sort_by_key_Forall2 {A B : Type} (R : A → B → Prop)
    (keyA : A → bool) (keyB : B → bool) (l1 : list A) (l2 : list B) :
  Forall2 (λ a b, R a b ∧ keyA a = keyB b) l1 l2 →
  Forall2 (λ a b, R a b ∧ keyA a = keyB b)
    (sort_by_key keyA l1) (sort_by_key keyB l2).
Proof.
  induction 1 as [|a b l1 l2 Hab _ IH]; simpl; [constructor|].
  by apply insert_by_key_Forall2.
Qed.

Lemma sort_refines (h0 : gmap loc obj) (pl : loc) (s : machine)
    (vs : list val) (xs : list NormalizedPlace) :
  objects s !! pl = Some (OList vs) →
  Forall2 (λ v x, v ≠ VRef pl ∧ record_at h0 (objects s) v x) vs xs →
  ∃ vs',
    Store.sort (VRef pl) Store.website_key s =
      (Ok tt, {| objects := <[pl := OList vs']> (objects s); outside := outside s |}) ∧
    Forall2 (λ v x, v ≠ VRef pl ∧ record_at h0 (objects s) v x)
      vs' (sort_by_key website_key xs).
Proof.
  intros Hpl Hvs.
  exists (sort_by_key fst (zip (website_key <$> xs) vs)).*2. split.
  - unfold Store.sort. unfold ST_bind at 1. unfold read. rewrite Hpl.
    by rewrite (ST_bind_Ok _ _ _ _ _ (map_each_website_key _ _ _ _ _ Hvs)).
  - apply Forall2_fmap_l.
    eapply Forall2_impl.
    + apply (sort_by_key_Forall2
               (λ (kv : bool * val) x, kv.2 ≠ VRef pl ∧ record_at h0 (objects s) kv.2 x)
               fst website_key).
      clear Hpl. induction Hvs as [|v x vs xs Hvx _ IH]; simpl; [constructor|].
      by constructor.
    + by intros [k v] x [? _].
Qed.

(** *** The whole of lines 70-87 and 151 *)

(** Entries with the same keys and related values give related lookups. *)
Lemma entry_list_to_map (R : val → pyval → Prop)
    (entries : list (string * val)) (fields : list (string * pyval)) :
  Forall2 (λ e f, e.1 = f.1 ∧ R e.2 f.2) entries fields →
  ∀ k, option_Forall2 R (entry k entries)
         ((list_to_map fields : gmap string pyval) !! k).
Proof.
  induction 1 as [|[k1 v] [k2 t] entries fields [Hk Hvt] _ IH]; intros k; simpl in *.
  - rewrite lookup_empty. constructor.
  - subst k2. destruct (String.eqb_spec k1 k) as [->|Hne].
    + rewrite lookup_insert_eq. by constructor.
    + rewrite lookup_insert_ne by done. apply IH.
Qed.

Lemma denotes_within_dict (n : nat) (h : gmap loc obj) (l : loc)
    (entries : list (string * val)) (d : gmap string pyval) :
  h !! l = Some (ODict entries) →
  (∀ k, option_Forall2 (denotes_within n h) (entry k entries) (d !! k)) →
  denotes_within (S n) h (VRef l) (PyDict d).
Proof. simpl. eauto. Qed.

(** A record of the store reads as the dict of lines 78-84. *)
Lemma record_at_denotes (h0 h : gmap loc obj) (v : val) (x : NormalizedPlace) :
  h0 ⊆ h → record_at h0 h v x → denotes h v (dict_of x).
Proof.
  intros Hsub (d & n & a & p & y & w & -> & Hd & [i1 Hn] & [i2 Ha] & [i3 Hp] & Hy & [i4 Hw]).
  set (fuel := S (Nat.max (Nat.max i1 i2) (Nat.max i3 i4))).
  assert (i1 ≤ fuel ∧ i2 ≤ fuel ∧ i3 ≤ fuel ∧ i4 ≤ fuel ∧ 1 ≤ fuel)
    as (H1 & H2 & H3 & H4 & H5) by (unfold fuel; lia).
  clearbody fuel.
  exists (S fuel). eapply denotes_within_dict; [exact Hd|].
  apply entry_list_to_map. rewrite Hy.
  repeat (constructor; [split; [reflexivity|]|]); cbn [fst snd]; try constructor.
  - apply (denotes_within_weaken _ h0); [done|]. by apply (denotes_within_deeper i1).
  - apply (denotes_within_weaken _ h0); [done|]. by apply (denotes_within_deeper i2).
  - apply (denotes_within_weaken _ h0); [done|]. by apply (denotes_within_deeper i3).
  - destruct fuel; [lia|]. reflexivity.
  - apply (denotes_within_weaken _ h0); [done|]. by apply (denotes_within_deeper i4).
Qed.

Lemma process_places_refines (s : machine) (places : val) (ts : list pyval) :
  denotes (objects s) places (PyList ts) →
  ∃ s' pl,
    objects s !! pl = None ∧
    unchanged_except pl s s' ∧
    match process_places ts with
    | Ok out =>
        Store.process_places places s = (Ok (VRef pl), s') ∧
        ∃ out_v, objects s' !! pl = Some (OList out_v) ∧
                 Forall2 (λ v x, v ≠ VRef pl ∧ record_at (objects s) (objects s') v x)
                   out_v out
    | Raise e => Store.process_places places s = (Raise e, s')
    end.
Proof.
  intros (l & items & -> & Hl & Hitems)%denotes_list_inv.
  unfold Store.process_places, process_places.
  rewrite (ST_bind_Ok _ _ _ _ _ (alloc_run _ _)).
  pose proof (fresh_unused s) as Hpl.
  set (pl := fresh (dom (objects s))) in *.
  set (s1 := {| objects := <[pl := OList []]> (objects s); outside := outside s |}).
  assert (objects s ⊆ objects s1) as Hsub by by apply insert_subseteq.
  assert (objects s1 !! pl = Some (OList [])) as Hpl1 by apply lookup_insert_eq.
  assert (unchanged_except pl s s1) as Hs1.
  { split; [done|]. intros l' Hne _. simpl. by rewrite lookup_insert_ne. }
  clearbody s1.
  assert (Store.py_iter (VRef l) s1 = (Ok items, s1)) as Hiter.
  { unfold Store.py_iter. by rewrite (ST_bind_Ok _ _ _ _ _ (read_in _ _ Hsub _ _ Hl)). }
  rewrite (ST_bind_Ok _ _ _ _ _ Hiter).
  destruct (for_each_refines (objects s) pl items ts Hpl Hitems s1 [] [] Hsub Hpl1)
    as (s2 & Hs2 & Hloop); [constructor|].
  exists s2, pl. split; [done|]. split; [by eapply unchanged_except_trans|].
  destruct (process_places_from [] ts) as [out|e].
  - destruct Hloop as (Hrun & out_v & Hpl2 & Hout).
    rewrite (ST_bind_Ok _ _ _ _ _ Hrun). split; [done|]. eauto.
  - by rewrite (ST_bind_Raise _ _ _ _ _ Hloop).
Qed.

(** The store-level code computes [normalize_and_rank] of the trees its
    input denotes, leaves the world outside and every object it was given
    as they were, and answers with a list object of its own making. *)
Lemma normalize_and_rank_refines (s : machine) (places : val) (ts : list pyval) :
  denotes (objects s) places (PyList ts) →
  outside (Store.normalize_and_rank places s).2 = outside s ∧
  objects s ⊆ objects (Store.normalize_and_rank places s).2 ∧
  match normalize_and_rank ts with
  | Ok ranked =>
      ∃ r, (Store.normalize_and_rank places s).1 = Ok r ∧
           denotes (objects (Store.normalize_and_rank places s).2) r
             (PyList (dict_of <$> ranked))
  | Raise e => (Store.normalize_and_rank places s).1 = Raise e
  end.
Proof.
  intros Hplaces.
  destruct (process_places_refines s places ts Hplaces) as (s1 & pl & Hpl & Hs1 & Hrun).
  assert (objects s ⊆ objects s1) as Hsub1.
  { by eapply unchanged_except_submap. }
  unfold Store.normalize_and_rank, normalize_and_rank.
  destruct (process_places ts) as [out|e]; cbn [result_bind].
  - destruct Hrun as (Hrun & out_v & Hpl1 & Hout).
    rewrite (ST_bind_Ok _ _ _ _ _ Hrun).
    destruct (sort_refines (objects s) pl s1 out_v out Hpl1 Hout) as (vs' & Hsort & Hvs').
    rewrite (ST_bind_Ok _ _ _ _ _ Hsort). simpl.
    assert (objects s ⊆ <[pl := OList vs']> (objects s1)) as Hsub2.
    { apply map_subseteq_spec. intros l o Hl.
      rewrite lookup_insert_ne by congruence. by eapply lookup_weaken. }
    split; [apply Hs1|]. split; [done|].
    exists (VRef pl). split; [done|].
    eapply denotes_list; [apply lookup_insert_eq|].
    apply Forall2_fmap_r. eapply Forall2_impl; [exact Hvs'|].
    intros v x [Hv Hrec]. eapply record_at_denotes; [exact Hsub2|].
    destruct Hrec as (d & n & a & p & y & w & -> & Hd & H).
    exists d, n, a, p, y, w. split; [done|]. split; [|done].
    rewrite lookup_insert_ne by congruence. done.
  - rewrite (ST_bind_Raise _ _ _ _ _ Hrun). simpl.
    split; [apply Hs1|]. done.
Qed.

(** A stored value denotes at most one tree. *)
Lemma denotes_within_functional (n m : nat) (h : gmap loc obj) (v : val)
    (t t' : pyval) :
  denotes_within n h v t → denotes_within m h v t' → t = t'.
Proof.
  revert m v t t'. induction n as [|n IH]; intros [|m] v t t' H H'; try done.
  destruct v, t; simpl in H; try done; destruct t'; simpl in H'; try done;
    try congruence.
  - destruct H as (items & Hl & Hitems), H' as (items' & Hl' & Hitems').
    rewrite Hl in Hl'. injection Hl' as <-. f_equal. clear Hl.
    revert l1 Hitems'. induction Hitems as [|x y items ts Hxy _ IHl];
      intros ts' Hts'; inversion Hts'; subst; [done|].
    f_equal; [by eapply IH|by apply IHl].
  - destruct H as (items & Hl & _), H' as (entries & Hl' & _). congruence.
  - destruct H as (entries & Hl & _), H' as (items & Hl' & _). congruence.
  - destruct H as (entries & Hl & Hentries), H' as (entries' & Hl' & Hentries').
    rewrite Hl in Hl'. injection Hl' as <-. f_equal.
    apply map_eq. intros k. specialize (Hentries k). specialize (Hentries' k).
    destruct Hentries as [x y Hxy|]; inversion Hentries'; subst; [|done].
    f_equal. by eapply IH.
Qed.

Lemma denotes_functional (h : gmap loc obj) (v : val) (t t' : pyval) :
  denotes h v t → denotes h v t' → t = t'.
Proof. intros [n H] [m H']. by eapply denotes_within_functional. Qed.

(** A dict object denotes the dict of what its entries denote. *)
Lemma denotes_dict (h : gmap loc obj) (l : loc)
    (entries : list (string * val)) (fields : list (string * pyval)) :
  h !! l = Some (ODict entries) →
  Forall2 (λ e f, e.1 = f.1 ∧ denotes h e.2 f.2) entries fields →
  denotes h (VRef l) (PyDict (list_to_map fields)).
Proof.
  intros Hl Hfields.
  assert (∃ n, Forall2 (λ e f, e.1 = f.1 ∧ denotes_within n h e.2 f.2) entries fields)
    as [n Hn].
  { clear Hl. induction Hfields as [|e f entries fields [Hk [n Hn]] _ [m Hm]].
    - exists 0. constructor.
    - exists (Nat.max n m). constructor.
      + split; [done|]. eapply denotes_within_deeper; [|exact Hn]. lia.
      + eapply Forall2_impl; [exact Hm|].
        intros ?? [? H]. split; [done|].
        eapply denotes_within_deeper; [|exact H]. lia. }
  exists (S n). eapply denotes_within_dict; [exact Hl|].
  by apply entry_list_to_map.
Qed.

(** A second run, started where the first one ended, answers with a list
    that denotes the same records; the answer of the first run is untouched. *)
Lemma rerun_refines (s : machine) (places : val) (ts : list pyval)
    (ranked : list NormalizedPlace) :
  denotes (objects s) places (PyList ts) →
  normalize_and_rank ts = Ok ranked →
  ∃ r1 s1 r2 s2,
    Store.normalize_and_rank places s = (Ok r1, s1) ∧
    Store.normalize_and_rank places s1 = (Ok r2, s2) ∧
    denotes (objects s2) r1 (PyList (dict_of <$> ranked)) ∧
    denotes (objects s2) r2 (PyList (dict_of <$> ranked)).
Proof.
  intros Hplaces Hranked.
  destruct (normalize_and_rank_refines s places ts Hplaces) as (_ & Hsub1 & Hres1).
  rewrite Hranked in Hres1. destruct Hres1 as (r1 & Hr1 & Hd1).
  destruct (Store.normalize_and_rank places s) as [res1 s1] eqn:Hrun1.
  simpl in *. subst res1.
  assert (denotes (objects s1) places (PyList ts)) as Hplaces1
    by by eapply denotes_weaken.
  destruct (normalize_and_rank_refines s1 places ts Hplaces1) as (_ & Hsub2 & Hres2).
  rewrite Hranked in Hres2. destruct Hres2 as (r2 & Hr2 & Hd2).
  destruct (Store.normalize_and_rank places s1) as [res2 s2] eqn:Hrun2.
  simpl in *. subst res2.
  exists r1, s1, r2, s2.
  split; [done|]. split; [done|]. split; [|done].
  by eapply denotes_weaken.
Qed.

(* ===================================================================== *)
(** * Part III. The claims of the specification                          *)
(* ===================================================================== *)

(** ** The normaliser and the ranking *)

(** C1.  For every sequence of RawPlace records [process_places] returns,
    and the record at each position says ['Has Website': 'Yes'] exactly
    when the place has a [websiteUri] that is a non-empty string; then
    ['Website'] is that URI, unchanged; when the field is absent or the
    empty string the record says ['No'] and ['Website'] is ["N/A"]. *)
Theorem website_presence (places : list pyval) :
  Forall (λ place, is_RawPlace place = true) places →
  ∃ out, process_places places = Ok out ∧
    ∀ i place, places !! i = Some place →
      ∃ d x, place = PyDict d ∧ out !! i = Some x ∧
        (Has_Website x = PyStr "Yes" ↔
           ∃ uri, d !! "websiteUri" = Some (PyStr uri) ∧ uri ≠ "") ∧
        (∀ uri, d !! "websiteUri" = Some (PyStr uri) → uri ≠ "" →
           Has_Website x = PyStr "Yes" ∧ Website x = PyStr uri) ∧
        (d !! "websiteUri" = None ∨ d !! "websiteUri" = Some (PyStr "") →
           Has_Website x = PyStr "No" ∧ Website x = PyStr "N/A").
Proof.
  intros Htyped.
  destruct (process_places_total places Htyped) as [out Hout].
  exists out. split; [done|].
  apply process_places_Ok in Hout.
  intros i place Hi.
  destruct (Forall2_lookup_l _ _ _ _ _ Hout Hi) as (x & Hx & Hpx).
  destruct (process_place_Ok_dict _ _ Hpx) as [d ->].
  exists d, x. split; [done|]. split; [done|].
  apply process_place_website; [done|].
  rewrite Forall_forall in Htyped.
  specialize (Htyped _ (list_elem_of_lookup_2 _ _ _ Hi)).
  simpl in Htyped. by apply andb_true_iff in Htyped as [_ ?].
Qed.

Lemma website_presence_witness :
  Forall (λ place, is_RawPlace place = true) [with_site; cafe_a] ∧
  ∃ out x y,
    process_places [with_site; cafe_a] = Ok out ∧
    out !! 0 = Some x ∧ out !! 1 = Some y ∧
    Has_Website x = PyStr "Yes" ∧ Website x = PyStr "http://x.com" ∧
    Has_Website y = PyStr "No" ∧ Website y = PyStr "N/A".
Proof.
  assert (Forall (λ place, is_RawPlace place = true) [with_site; cafe_a]) as Htyped.
  { repeat constructor. }
  split; [exact Htyped|].
  destruct (website_presence [with_site; cafe_a] Htyped) as (out & Hout & Hall).
  destruct (Hall 0 with_site eq_refl) as (d0 & x & Hd0 & Hx & _ & Hyes & _).
  destruct (Hall 1 cafe_a eq_refl) as (d1 & y & Hd1 & Hy & _ & _ & Hno).
  injection Hd0 as <-. injection Hd1 as <-.
  exists out, x, y.
  destruct (Hyes "http://x.com" eq_refl) as [Hx1 Hx2]; [discriminate|].
  destruct Hno as [Hy1 Hy2]; [by left|].
  repeat split; assumption.
Defined.

(** C2.  In the ranked output no record with a website stands before a
    record without one. *)
Theorem ranked_no_website_first (places : list pyval)
    (ranked : list NormalizedPlace) (i j : nat) (x y : NormalizedPlace) :
  normalize_and_rank places = Ok ranked →
  i < j → ranked !! i = Some x → ranked !! j = Some y →
  ¬ (Has_Website x = PyStr "Yes" ∧ Has_Website y ≠ PyStr "Yes").
Proof.
  unfold normalize_and_rank. rewrite result_bind_Ok.
  intros (processed & _ & [= <-]) Hij Hi Hj [Hx Hy].
  apply (sort_by_key_ordered website_key processed i j x y Hij Hi Hj).
  split; [by apply website_key_Yes|].
  destruct (website_key y) eqn:E; [|done].
  by apply website_key_Yes in E.
Qed.

(** Scenario B: of two places, the one without a website comes first. *)
Lemma ranked_no_website_first_witness :
  ∃ x y,
    normalize_and_rank [with_site; cafe_a] = Ok [x; y] ∧
    Name x = PyStr "Cafe A" ∧ Name y = PyStr "Shop B" ∧
    ¬ (Has_Website x = PyStr "Yes" ∧ Has_Website y ≠ PyStr "Yes").
Proof.
  eexists _, _. split; [reflexivity|]. split; [reflexivity|]. split; [reflexivity|].
  eapply (ranked_no_website_first [with_site; cafe_a] _ 0 1);
    [reflexivity|lia|reflexivity|reflexivity].
Defined.

(** C3.  The ranking is stable.  There is a rearrangement [origin] of the
    input positions such that the ranked record at position [i] is the
    normalised form of the input place at position [origin !! i], and two
    ranked records with the same ['Has Website'] value come from input
    positions in the same order.  Consequently the result is fixed by the
    input: a second run returns the same sequence, and so does every other
    stable arrangement of the normalised records by this key. *)
Theorem ranking_stable (places : list pyval) (ranked : list NormalizedPlace) :
  normalize_and_rank places = Ok ranked →
  (∃ origin : list nat,
     origin ≡ₚ seq 0 (length places) ∧
     (∀ i k, origin !! i = Some k →
        ∃ place x, places !! k = Some place ∧ process_place place = Ok x ∧
                   ranked !! i = Some x) ∧
     (∀ i j ki kj x y,
        i < j → origin !! i = Some ki → origin !! j = Some kj →
        ranked !! i = Some x → ranked !! j = Some y →
        Has_Website x = Has_Website y → ki < kj)) ∧
  (∀ again, normalize_and_rank places = Ok again → again = ranked) ∧
  (∀ processed other,
     process_places places = Ok processed →
     (∀ b, filter (λ x, website_key x = b) other
           = filter (λ x, website_key x = b) processed) →
     (∀ i j x y, i < j → other !! i = Some x → other !! j = Some y →
                 ¬ (website_key x = true ∧ website_key y = false)) →
     other = ranked).
Proof.
  unfold normalize_and_rank. rewrite result_bind_Ok.
  intros (processed & Hprocessed & [= <-]).
  pose proof Hprocessed as Hall. apply process_places_Ok in Hall.
  destruct (sort_origin_spec website_key processed) as (Hperm & Hat & Hord).
  split; [|split].
  - exists (sort_origin website_key processed).
    split; [by rewrite (Forall2_length _ _ _ Hall)|]. split.
    + intros i k Hi. destruct (Hat i k Hi) as [Heq Hlt].
      destruct (lookup_lt_is_Some_2 processed k Hlt) as [x Hx].
      destruct (Forall2_lookup_r _ _ _ _ _ Hall Hx) as (place & Hplace & Hpx).
      exists place, x. by rewrite Heq.
    + intros i j ki kj x y Hij Hi Hj Hx Hy Hxy.
      apply (Hord i j ki kj x y Hij Hi Hj Hx Hy).
      unfold website_key. by rewrite Hxy.
  - intros again. rewrite Hprocessed. simpl. by intros [= <-].
  - intros processed' other. rewrite Hprocessed. intros [= <-].
    apply stable_sort_unique.
Qed.

(** Two places without a website keep their input order in front of the
    one that has a website. *)
Lemma ranking_stable_witness :
  ∃ x y z,
    normalize_and_rank [with_site; cafe_a; PyDict ∅] = Ok [x; y; z] ∧
    Name x = PyStr "Cafe A" ∧ Name y = PyStr "Unknown" ∧ Name z = PyStr "Shop B" ∧
    ∀ again, normalize_and_rank [with_site; cafe_a; PyDict ∅] = Ok again →
             again = [x; y; z].
Proof.
  eexists _, _, _. split; [reflexivity|]. repeat (split; [reflexivity|]).
  eapply (ranking_stable [with_site; cafe_a; PyDict ∅]). reflexivity.
Defined.

(** C4.  Normalisation yields one record per input record: on every
    sequence of RawPlace records [process_places] returns a list of the
    same length whose [i]-th record is the normal form of the [i]-th place,
    and the ranking only rearranges that list. *)
Theorem one_record_per_place (places : list pyval) :
  Forall (λ place, is_RawPlace place = true) places →
  ∃ processed ranked,
    process_places places = Ok processed ∧
    normalize_and_rank places = Ok ranked ∧
    length processed = length places ∧
    length ranked = length places ∧
    Forall2 (λ place x, process_place place = Ok x) places processed ∧
    ranked ≡ₚ processed.
Proof.
  intros Htyped.
  destruct (process_places_total places Htyped) as [processed Hprocessed].
  exists processed, (sort_by_key website_key processed).
  pose proof Hprocessed as Hall. apply process_places_Ok in Hall.
  split; [done|]. split.
  { unfold normalize_and_rank. by rewrite Hprocessed. }
  split; [by rewrite (Forall2_length _ _ _ Hall)|]. split.
  { by rewrite sort_by_key_length, (Forall2_length _ _ _ Hall). }
  split; [done|]. apply sort_by_key_perm.
Qed.

Lemma one_record_per_place_witness :
  Forall (λ place, is_RawPlace place = true) [with_site; cafe_a; PyDict ∅] ∧
  ∃ processed ranked,
    process_places [with_site; cafe_a; PyDict ∅] = Ok processed ∧
    normalize_and_rank [with_site; cafe_a; PyDict ∅] = Ok ranked ∧
    length processed = 3 ∧ length ranked = 3.
Proof.
  assert (Forall (λ place, is_RawPlace place = true)
            [with_site; cafe_a; PyDict ∅]) as Htyped.
  { repeat constructor. }
  split; [exact Htyped|].
  destruct (one_record_per_place _ Htyped)
    as (processed & ranked & H1 & H2 & H3 & H4 & _).
  exists processed, ranked. repeat split; assumption.
Defined.

(** C5.  On every RawPlace record the five fields of the normalised record
    are all strings (none is [None]); a missing name is ["Unknown"], a
    missing address ["N/A"], a missing price level ["N/A"]; and a record
    with only a display name and an address gives the record of
    Scenario A. *)
Theorem missing_fields_default (place : pyval) :
  is_RawPlace place = true →
  ∃ d x, place = PyDict d ∧ process_place place = Ok x ∧
    (∃ name address price_level has_website website,
       Name x = PyStr name ∧ Address x = PyStr address ∧
       Price_Level x = PyStr price_level ∧
       Has_Website x = PyStr has_website ∧ Website x = PyStr website) ∧
    (d !! "displayName" = None ∨
     (∃ display_name, d !! "displayName" = Some (PyDict display_name) ∧
                      display_name !! "text" = None) →
     Name x = PyStr "Unknown") ∧
    (d !! "formattedAddress" = None → Address x = PyStr "N/A") ∧
    (d !! "priceLevel" = None → Price_Level x = PyStr "N/A") ∧
    (∀ name address,
       d = <["displayName" := PyDict {["text" := PyStr name]}]>
             (<["formattedAddress" := PyStr address]> ∅) →
       x = {| Name := PyStr name; Address := PyStr address;
              Price_Level := PyStr "N/A"; Has_Website := PyStr "No";
              Website := PyStr "N/A" |}).
Proof.
  intros Htyped.
  destruct place as [| | | | | |d]; try discriminate.
  destruct (process_place_fields d Htyped) as (x & Hx & Hstr & Hname & Haddr & Hprice).
  exists d, x. repeat (split; [done|]).
  intros name address ->. rewrite process_place_dict in Hx.
  by injection Hx as <-.
Qed.

(** Scenario A. *)
Lemma missing_fields_default_witness :
  is_RawPlace cafe_a = true ∧
  process_places [cafe_a] =
    Ok [{| Name := PyStr "Cafe A"; Address := PyStr "1 Main St";
           Price_Level := PyStr "N/A"; Has_Website := PyStr "No";
           Website := PyStr "N/A" |}].
Proof.
  split; [reflexivity|].
  destruct (missing_fields_default cafe_a eq_refl)
    as (d & x & Hd & Hx & _ & _ & _ & _ & Hscenario).
  unfold process_places. simpl. rewrite Hx. simpl.
  injection Hd as <-. by rewrite (Hscenario "Cafe A" "1 Main St" eq_refl).
Defined.

(** ** The query executor *)

(** C6, as the code has it.  A response with status 200 whose body parses
    is returned as [(parsed, None)], whatever the parsed value holds: a
    [places] list, an empty one, or no [places] key at all. *)
Theorem status_200_is_success (query api_key : string) (w : world)
    (resp : response) (parsed : pyval) :
  network w (length (sent w)) (places_request query api_key) = Ok resp →
  status_code resp = 200%Z →
  json resp = Ok parsed →
  search_places query api_key w =
    (Ok (parsed, None), record_request (places_request query api_key) w).
Proof.
  intros Hnet Hstatus Hjson.
  by rewrite search_places_run, Hnet, Hstatus, Hjson.
Qed.

(** An empty [places] list and an absent [places] key are both successes. *)
Lemma status_200_is_success_witness :
  (search_places "cafe" "key" (world_of (Ok empty_places))).1
    = Ok (PyDict {["places" := PyList []]}, None) ∧
  (search_places "cafe" "key" (world_of (Ok no_places_key))).1
    = Ok (PyDict ∅, None).
Proof.
  split.
  - by rewrite (status_200_is_success "cafe" "key" (world_of (Ok empty_places))
                  empty_places _ eq_refl eq_refl eq_refl).
  - by rewrite (status_200_is_success "cafe" "key" (world_of (Ok no_places_key))
                  no_places_key _ eq_refl eq_refl eq_refl).
Defined.

(** C6, as the specification states it, fails: status 201 lies in the
    success range and its body parses, yet the executor returns the
    description of a failed request and no result. *)
Lemma status_201_is_failure :
  in_success_range (status_code created) = true ∧
  json created = Ok (PyDict ∅) ∧
  (search_places "cafe" "key" (world_of (Ok created))).1
    = Ok (PyNone, Some (request_failed_msg 201 "{}")).
Proof. repeat split. Qed.

(** C7.  A response whose status is not 200 (so every status outside the
    success range) is returned as [(None, description)], the description
    built from the status code and the raw body and determining both; a
    [RequestException] raised by the request is returned as
    [(None, description)] built from its message; the two kinds of
    description differ.  In both cases one request has been sent, and
    nothing is raised. *)
Theorem failures_are_returned (query api_key : string) (w : world) :
  (∀ resp,
     network w (length (sent w)) (places_request query api_key) = Ok resp →
     status_code resp ≠ 200%Z →
     search_places query api_key w =
       (Ok (PyNone, Some (request_failed_msg (status_code resp) (text resp))),
        record_request (places_request query api_key) w)) ∧
  (∀ msg,
     network w (length (sent w)) (places_request query api_key)
       = Raise (RequestException msg) →
     search_places query api_key w =
       (Ok (PyNone, Some (transport_error_msg msg)),
        record_request (places_request query api_key) w)) ∧
  (∀ status, in_success_range status = false → status ≠ 200%Z) ∧
  (∀ s s' b b', request_failed_msg s b = request_failed_msg s' b' → s = s' ∧ b = b') ∧
  (∀ m m', transport_error_msg m = transport_error_msg m' → m = m') ∧
  (∀ s b m, request_failed_msg s b ≠ transport_error_msg m).
Proof.
  split; [|split; [|split; [|split; [|split]]]].
  - intros resp Hnet Hstatus. rewrite search_places_run, Hnet.
    by apply Z.eqb_neq in Hstatus as ->.
  - intros msg Hnet. by rewrite search_places_run, Hnet.
  - intros status H ->. discriminate.
  - apply request_failed_msg_inj.
  - apply transport_error_msg_inj.
  - apply request_failed_not_transport.
Qed.

(** Scenario D, and a timeout. *)
Lemma failures_are_returned_witness :
  search_places "cafe" "key" (world_of (Ok forbidden)) =
    (Ok (PyNone, Some (request_failed_msg 403 "forbidden")),
     record_request (places_request "cafe" "key") (world_of (Ok forbidden))) ∧
  search_places "cafe" "key" (world_of (Raise (RequestException "Read timed out."))) =
    (Ok (PyNone, Some (transport_error_msg "Read timed out.")),
     record_request (places_request "cafe" "key")
       (world_of (Raise (RequestException "Read timed out.")))).
Proof.
  split.
  - apply (proj1 (failures_are_returned "cafe" "key" (world_of (Ok forbidden)))
             forbidden eq_refl).
    discriminate.
  - apply (proj1 (proj2 (failures_are_returned "cafe" "key"
                           (world_of (Raise (RequestException "Read timed out.")))))
             "Read timed out." eq_refl).
Defined.

(** ** The validation in the handler *)

(** C8.  With an empty query, or an empty key, the handler shows its own
    message and returns: the requests sent are those sent before, whereas
    every call of the executor sends one more; the only thing drawn is the
    validation message. *)
Theorem validation_rejects (search_query api_key : string) (w : world) :
  search_query = "" ∨ api_key = "" →
  ∃ msg,
    handler true search_query api_key w = (Ok tt, record_call (St_error msg) w) ∧
    (search_query = "" → msg = "Please enter a search query") ∧
    (search_query ≠ "" →
     msg = "Please provide your Google Places API key in the settings above") ∧
    sent (handler true search_query api_key w).2 = sent w ∧
    page (handler true search_query api_key w).2 = page w ++ [St_error msg] ∧
    (∀ q k w0, length (sent (search_places q k w0).2) = S (length (sent w0))).
Proof.
  intros Hempty.
  assert (∀ q k w0, length (sent (search_places q k w0).2) = S (length (sent w0)))
    as Hsend.
  { intros q k w0. rewrite search_places_sent, length_app. simpl. lia. }
  destruct (decide (search_query = "")) as [->|Hq].
  - exists "Please enter a search query".
    split; [done|]. split; [done|]. split; [done|]. by split.
  - destruct Hempty as [?| ->]; [done|].
    exists "Please provide your Google Places API key in the settings above".
    unfold handler. pose proof Hq as Hq'. apply truthy_PyStr in Hq' as ->.
    split; [done|]. split; [done|]. split; [done|]. by split.
Qed.

(** Scenario C, and the same with the key missing. *)
Lemma validation_rejects_witness :
  handler true "" "key" (world_of (Ok forbidden))
    = (Ok tt, record_call (St_error "Please enter a search query")
                (world_of (Ok forbidden))) ∧
  sent (handler true "cafe" "" (world_of (Ok forbidden))).2 = [].
Proof.
  split.
  - destruct (validation_rejects "" "key" (world_of (Ok forbidden)) (or_introl eq_refl))
      as (msg & Hrun & Hmsg & _).
    by rewrite Hrun, (Hmsg eq_refl).
  - destruct (validation_rejects "cafe" "" (world_of (Ok forbidden)) (or_intror eq_refl))
      as (msg & _ & _ & _ & Hsent & _).
    exact Hsent.
Defined.

(** ** Purity *)

(** C9.  Run on a list object that denotes the places [ts], in any store
    and any world, lines 70-87 and 151 send nothing and draw nothing (the
    world outside is as before), leave every object of the store as it was
    (so the places given still denote [ts]), and answer with what
    [normalize_and_rank ts] computes: a list denoting the ranked records, or
    the same exception.  Two runs on lists that denote the same places
    therefore give lists that denote the same records, whatever else the
    two stores and worlds hold. *)
Theorem normalize_and_rank_is_pure (s1 s2 : machine) (places1 places2 : val)
    (ts : list pyval) :
  denotes (objects s1) places1 (PyList ts) →
  denotes (objects s2) places2 (PyList ts) →
  outside (Store.normalize_and_rank places1 s1).2 = outside s1 ∧
  objects s1 ⊆ objects (Store.normalize_and_rank places1 s1).2 ∧
  denotes (objects (Store.normalize_and_rank places1 s1).2) places1 (PyList ts) ∧
  match normalize_and_rank ts with
  | Ok ranked =>
      ∃ r1 r2,
        (Store.normalize_and_rank places1 s1).1 = Ok r1 ∧
        (Store.normalize_and_rank places2 s2).1 = Ok r2 ∧
        denotes (objects (Store.normalize_and_rank places1 s1).2) r1
          (PyList (dict_of <$> ranked)) ∧
        denotes (objects (Store.normalize_and_rank places2 s2).2) r2
          (PyList (dict_of <$> ranked))
  | Raise e =>
      (Store.normalize_and_rank places1 s1).1 = Raise e ∧
      (Store.normalize_and_rank places2 s2).1 = Raise e
  end.
Proof.
  intros H1 H2.
  destruct (normalize_and_rank_refines s1 places1 ts H1) as (Hout1 & Hsub1 & Hres1).
  destruct (normalize_and_rank_refines s2 places2 ts H2) as (_ & _ & Hres2).
  split; [done|]. split; [done|]. split; [by eapply denotes_weaken|].
  destruct (normalize_and_rank ts) as [ranked|e]; [|done].
  destruct Hres1 as (r1 & Hr1 & Hd1), Hres2 as (r2 & Hr2 & Hd2).
  by exists r1, r2.
Qed.

(** A dict object denotes a given dict: by its entries, one by one. *)
Ltac dict_denotes fields :=
  eapply (denotes_dict _ _ _ fields); [reflexivity|];
  repeat (constructor; [split; [reflexivity|]|]); try constructor;
  try apply denotes_str.

Lemma store_a_denotes :
  denotes (objects store_a) (VRef 1%positive) (PyList [with_site; cafe_a]).
Proof.
  eapply denotes_list; [reflexivity|].
  constructor; [|constructor; [|constructor]].
  - dict_denotes [("displayName", PyDict {["text" := PyStr "Shop B"]});
                  ("websiteUri", PyStr "http://x.com")].
    dict_denotes [("text", PyStr "Shop B")].
  - dict_denotes [("displayName", PyDict {["text" := PyStr "Cafe A"]});
                  ("formattedAddress", PyStr "1 Main St")].
    dict_denotes [("text", PyStr "Cafe A")].
Defined.

Lemma store_b_denotes :
  denotes (objects store_b) (VRef 9%positive) (PyList [with_site; cafe_a]).
Proof.
  eapply denotes_list; [reflexivity|].
  constructor; [|constructor; [|constructor]].
  - dict_denotes [("websiteUri", PyStr "http://x.com");
                  ("displayName", PyDict {["text" := PyStr "Shop B"]})].
    dict_denotes [("text", PyStr "Shop B")].
  - dict_denotes [("formattedAddress", PyStr "1 Main St");
                  ("displayName", PyDict {["text" := PyStr "Cafe A"]})].
    dict_denotes [("text", PyStr "Cafe A")].
Defined.

(** Scenario B in two stores: both runs answer with lists that denote the
    same two records, the place without a website first. *)
Lemma normalize_and_rank_is_pure_witness :
  denotes (objects store_a) (VRef 1%positive) (PyList [with_site; cafe_a]) ∧
  denotes (objects store_b) (VRef 9%positive) (PyList [with_site; cafe_a]) ∧
  outside (Store.normalize_and_rank (VRef 1%positive) store_a).2 = outside store_a ∧
  objects store_a ⊆ objects (Store.normalize_and_rank (VRef 1%positive) store_a).2 ∧
  ∃ ranked r1 r2,
    normalize_and_rank [with_site; cafe_a] = Ok ranked ∧
    (Store.normalize_and_rank (VRef 1%positive) store_a).1 = Ok r1 ∧
    (Store.normalize_and_rank (VRef 9%positive) store_b).1 = Ok r2 ∧
    denotes (objects (Store.normalize_and_rank (VRef 1%positive) store_a).2) r1
      (PyList (dict_of <$> ranked)) ∧
    denotes (objects (Store.normalize_and_rank (VRef 9%positive) store_b).2) r2
      (PyList (dict_of <$> ranked)).
Proof.
  split; [exact store_a_denotes|]. split; [exact store_b_denotes|].
  destruct (normalize_and_rank_is_pure store_a store_b (VRef 1%positive) (VRef 9%positive)
              [with_site; cafe_a] store_a_denotes store_b_denotes)
    as (Hout & Hsub & _ & Hres).
  split; [exact Hout|]. split; [exact Hsub|].
  destruct (normalize_and_rank [with_site; cafe_a]) as [ranked|e] eqn:E;
    [|discriminate E].
  destruct Hres as (r1 & r2 & Hres).
  by exists ranked, r1, r2.
Defined.

(** ** The shape of the executor's answer *)

(** C10, as the code has it.  When [search_places] returns, it returns a
    pair [(result, error)].  [error] is [None] exactly on the success path
    (status 200, body parsed), where [result] is the parsed body; otherwise
    [result] is [None] and [error] is a non-empty description.  So the pair
    never holds both a result and an error, and it holds neither exactly
    when the body parsed at status 200 is the JSON [null].  The call raises
    only an exception that is not a [RequestException], coming from the
    request or from parsing the body at status 200. *)
Theorem result_error_pair (query api_key : string) (w : world) :
  (∀ result error,
     (search_places query api_key w).1 = Ok (result, error) →
     (error = None ↔
        ∃ resp, network w (length (sent w)) (places_request query api_key) = Ok resp ∧
                status_code resp = 200%Z ∧ json resp = Ok result) ∧
     (error ≠ None → result = PyNone ∧ truthy_error error = true) ∧
     ¬ (result ≠ PyNone ∧ error ≠ None) ∧
     (result = PyNone ∧ error = None ↔
        ∃ resp, network w (length (sent w)) (places_request query api_key) = Ok resp ∧
                status_code resp = 200%Z ∧ json resp = Ok PyNone)) ∧
  (∀ e,
     (search_places query api_key w).1 = Raise e →
     (∀ msg, e ≠ RequestException msg) ∧
     (network w (length (sent w)) (places_request query api_key) = Raise e ∨
      ∃ resp, network w (length (sent w)) (places_request query api_key) = Ok resp ∧
              status_code resp = 200%Z ∧ json resp = Raise e)).
Proof.
  rewrite search_places_run. simpl.
  destruct (network w _ _) as [resp|e0] eqn:Hnet.
  - destruct (status_code resp =? 200)%Z eqn:Hstatus.
    + apply Z.eqb_eq in Hstatus.
      destruct (json resp) as [parsed|e0] eqn:Hjson.
      * split; [|discriminate].
        intros result error [= <- <-].
        split; [split; [by eauto|done]|]. split; [done|]. split; [by intros [_ ?]|].
        split.
        -- intros [-> _]. by eauto.
        -- intros (resp' & [= <-] & _ & Hnull). split; [congruence|done].
      * destruct e0 as [msg| |msg].
        -- split; [|discriminate].
           intros result error [= <- <-].
           split; [split; [discriminate|by intros (? & [= <-] & _ & ?); congruence]|].
           split; [done|]. split; [by intros [? _]|].
           split; [by intros [_ ?]|by intros (? & [= <-] & _ & ?); congruence].
        -- split; [discriminate|]. intros e [= <-]. split; [discriminate|by eauto].
        -- split; [discriminate|]. intros e [= <-]. split; [discriminate|by eauto].
    + apply Z.eqb_neq in Hstatus. split; [|discriminate].
      intros result error [= <- <-].
      split; [split; [discriminate|by intros (? & [= <-] & ? & _)]|].
      split; [done|]. split; [by intros [? _]|].
      split; [by intros [_ ?]|by intros (? & [= <-] & ? & _)].
  - destruct e0 as [msg| |msg].
    + split; [|discriminate].
      intros result error [= <- <-].
      split; [split; [discriminate|by intros (? & [=] & _)]|].
      split; [done|]. split; [by intros [? _]|].
      split; [by intros [_ ?]|by intros (? & [=] & _)].
    + split; [discriminate|]. intros e [= <-]. split; [discriminate|by left].
    + split; [discriminate|]. intros e [= <-]. split; [discriminate|by left].
Qed.

Lemma result_error_pair_witness :
  (search_places "cafe" "key" (world_of (Ok forbidden))).1
    = Ok (PyNone, Some (request_failed_msg 403 "forbidden")) ∧
  ¬ (PyNone ≠ PyNone ∧ Some (request_failed_msg 403 "forbidden") ≠ None).
Proof.
  split; [reflexivity|].
  apply (proj1 (result_error_pair "cafe" "key" (world_of (Ok forbidden)))
           PyNone (Some (request_failed_msg 403 "forbidden")) eq_refl).
Defined.

(** C10, as stated, fails: at status 200 with the body [null] the executor
    returns the pair [(None, None)], neither a result nor an error. *)
Lemma null_body_is_neither :
  status_code null_body = 200%Z ∧
  json null_body = Ok PyNone ∧
  (search_places "cafe" "key" (world_of (Ok null_body))).1 = Ok (PyNone, None).
Proof. repeat split. Qed.

(* ===================================================================== *)
(** * Part IV. Further properties of the code                             *)
(* ===================================================================== *)

(** ** The normaliser, on any input *)

Lemma process_place_Ok_iff (place : pyval) :
  (∃ x, process_place place = Ok x) ↔ processable place = true.
Proof.
  split.
  - intros [x Hx]. destruct (process_place_Ok_dict _ _ Hx) as [d ->].
    rewrite process_place_dict in Hx. cbv zeta in Hx. simpl.
    destruct (d !! "displayName") as [[]|]; try done.
  - destruct place as [| | | | | |d]; try discriminate. simpl.
    rewrite process_place_dict. cbv zeta.
    destruct (d !! "displayName") as [[]|]; try discriminate; simpl; eauto.
Qed.

Lemma process_place_Raise (place : pyval) (e : exn) :
  process_place place = Raise e → e = OperandError.
Proof.
  destruct place as [| | | |s|l|d]; unfold process_place, has_website_of; simpl;
    try (by intros [= <-]).
  - by destruct (str_contains _ _); intros [= <-].
  - by destruct (existsb _ _); intros [= <-].
  - fold (has_website_of (PyDict d)). change (process_place (PyDict d) = Raise e → e = OperandError).
    rewrite process_place_dict. cbv zeta.
    destruct (d !! "displayName") as [[]|]; simpl; by intros [= <-].
Qed.

(** The loop, one place at a time: the records of the places before the
    first one that raises are dropped with it. *)
Lemma process_places_from_app (acc : list NormalizedPlace) (l1 l2 : list pyval) :
  process_places_from acc (l1 ++ l2) =
    result_bind (process_places_from acc l1) (λ acc', process_places_from acc' l2).
Proof.
  revert acc. induction l1 as [|place l1 IH]; intros acc; simpl; [done|].
  destruct (process_place place) as [x|e]; simpl; [apply IH|done].
Qed.

Lemma process_places_from_acc (acc1 acc2 : list NormalizedPlace) (places : list pyval) :
  process_places_from (acc1 ++ acc2) places =
    result_bind (process_places_from acc2 places) (λ out, Ok (acc1 ++ out)).
Proof.
  revert acc2. induction places as [|place rest IH]; intros acc2; simpl; [done|].
  destruct (process_place place) as [x|e]; simpl; [|done].
  by rewrite <- app_assoc, IH.
Qed.

(** X1.  [process_places] returns exactly when every place is a dict whose
    [displayName], when present, is a dict.  Otherwise it raises, for the
    first place that is not, the error of an operation its operand does
    not support, and returns no record at all. *)
Theorem process_places_returns_iff (places : list pyval) :
  ((∃ out, process_places places = Ok out) ↔
     Forall (λ place, processable place = true) places) ∧
  (∀ e, process_places places = Raise e →
     e = OperandError ∧
     ∃ i place, places !! i = Some place ∧ processable place = false ∧
                Forall (λ place, processable place = true) (take i places)).
Proof.
  split.
  - split.
    + intros [out Hout%process_places_Ok].
      induction Hout as [|place x places out Hx _ IH]; constructor; [|done].
      apply process_place_Ok_iff. eauto.
    + intros Hall.
      cut (∃ out, Forall2 (λ p x, process_place p = Ok x) places out).
      { intros [out Hout]. exists out. by apply process_places_Ok. }
      induction Hall as [|place places Hp _ [out IH]]; [by exists []|].
      apply process_place_Ok_iff in Hp as [x Hx]. exists (x :: out). by constructor.
  - unfold process_places. generalize (@nil NormalizedPlace).
    induction places as [|place rest IH]; intros acc e; simpl; [discriminate|].
    destruct (process_place place) as [x|e0] eqn:Hplace; simpl.
    + intros H. destruct (IH _ _ H) as (-> & i & p & Hi & Hp & Htake).
      split; [done|]. exists (S i), p. split; [done|]. split; [done|].
      simpl. constructor; [|done]. apply process_place_Ok_iff. eauto.
    + intros [= <-]. split; [by eapply process_place_Raise|].
      exists 0, place. split; [done|]. split; [|constructor].
      destruct (processable place) eqn:E; [|done].
      apply process_place_Ok_iff in E as [x Hx]. congruence.
Qed.

(** X2.  Of a place, the loop reads the four entries [displayName],
    [formattedAddress], [priceLevel] and [websiteUri] and nothing else: two
    dicts that agree on these are normalised alike. *)
Theorem process_place_reads_four_keys (d d' : gmap string pyval) :
  d !! "displayName" = d' !! "displayName" →
  d !! "formattedAddress" = d' !! "formattedAddress" →
  d !! "priceLevel" = d' !! "priceLevel" →
  d !! "websiteUri" = d' !! "websiteUri" →
  process_place (PyDict d) = process_place (PyDict d').
Proof.
  intros H1 H2 H3 H4. rewrite !process_place_dict. cbv zeta.
  by rewrite H1, H2, H3, H4.
Qed.

Lemma process_place_reads_four_keys_witness :
  process_place (PyDict (<["rating" := PyFloat 4.5]>
                         (<["websiteUri" := PyStr "http://x.com"]> ∅))) =
  process_place (PyDict (<["websiteUri" := PyStr "http://x.com"]>
                         (<["types" := PyList [PyStr "cafe"]]> ∅))).
Proof.
  apply process_place_reads_four_keys; reflexivity.
Defined.

(** X3.  Whatever the place holds, a record that is returned says [Yes]
    or [No]; with [No] its website is [N/A]; with [Yes] its website is the
    value stored under [websiteUri], and that value is truthy. *)
Theorem badge_and_website_agree (places : list pyval) (out : list NormalizedPlace) :
  process_places places = Ok out →
  ∀ i x, out !! i = Some x →
    (Has_Website x = PyStr "Yes" ∨ Has_Website x = PyStr "No") ∧
    (Has_Website x = PyStr "No" → Website x = PyStr "N/A") ∧
    (Has_Website x = PyStr "Yes" →
       truthy (Website x) = true ∧
       ∃ d, places !! i = Some (PyDict d) ∧ d !! "websiteUri" = Some (Website x)).
Proof.
  intros Hout%process_places_Ok i x Hi.
  destruct (Forall2_lookup_r _ _ _ _ _ Hout Hi) as (place & Hplace & Hx).
  destruct (process_place_Ok_dict _ _ Hx) as [d ->].
  rewrite process_place_dict in Hx. cbv zeta in Hx.
  apply result_bind_Ok in Hx as (name & _ & [= <-]). simpl.
  destruct (d !! "websiteUri") as [v|] eqn:Hv; simpl.
  - destruct (truthy v) eqn:Ht.
    + split; [by left|]. split; [discriminate|]. intros _. split; [done|]. by exists d.
    + split; [by right|]. split; [done|]. discriminate.
  - split; [by right|]. split; [done|]. discriminate.
Qed.

(** A [websiteUri] that is a number: outside RawPlace, inside the rule. *)
Lemma badge_and_website_agree_witness :
  process_places [PyDict {["websiteUri" := PyInt 5]}] =
    Ok [{| Name := PyStr "Unknown"; Address := PyStr "N/A";
           Price_Level := PyStr "N/A"; Has_Website := PyStr "Yes";
           Website := PyInt 5 |}] ∧
  truthy (PyInt 5) = true ∧
  ∃ d, [PyDict {["websiteUri" := PyInt 5]}] !! 0 = Some (PyDict d) ∧
       d !! "websiteUri" = Some (PyInt 5).
Proof.
  assert (process_places [PyDict {["websiteUri" := PyInt 5]}] =
            Ok [{| Name := PyStr "Unknown"; Address := PyStr "N/A";
                   Price_Level := PyStr "N/A"; Has_Website := PyStr "Yes";
                   Website := PyInt 5 |}]) as Hrun by reflexivity.
  split; [exact Hrun|].
  destruct (badge_and_website_agree _ _ Hrun 0 _ eq_refl) as (_ & _ & H).
  exact (H eq_refl).
Defined.

(** X4.  A field that is present is copied as it is, whatever it is: an
    address or a price level that is [None] or the empty string is not
    replaced by the default, which is for a missing key only. *)
Theorem present_fields_pass_through (d : gmap string pyval) (x : NormalizedPlace) :
  process_place (PyDict d) = Ok x →
  (∀ v, d !! "formattedAddress" = Some v → Address x = v) ∧
  (∀ v, d !! "priceLevel" = Some v → Price_Level x = v) ∧
  (∀ display_name v, d !! "displayName" = Some (PyDict display_name) →
                     display_name !! "text" = Some v → Name x = v) ∧
  (∀ display_name, d !! "displayName" = Some (PyDict display_name) →
                   display_name !! "text" = None → Name x = PyStr "Unknown").
Proof.
  rewrite process_place_dict. cbv zeta.
  intros (name & Hname & [= <-])%result_bind_Ok. simpl.
  split; [by intros v ->|]. split; [by intros v ->|].
  split.
  - intros dn v Hdn Hv. rewrite Hdn in Hname. simpl in Hname.
    rewrite Hv in Hname. simpl in Hname. congruence.
  - intros dn Hdn Hv. rewrite Hdn in Hname. simpl in Hname.
    rewrite Hv in Hname. simpl in Hname. congruence.
Qed.

(** An empty address stays empty, while an empty website counts as none. *)
Lemma present_fields_pass_through_witness :
  process_place (PyDict (<["formattedAddress" := PyStr ""]>
                         (<["websiteUri" := PyStr ""]> ∅))) =
    Ok {| Name := PyStr "Unknown"; Address := PyStr "";
          Price_Level := PyStr "N/A"; Has_Website := PyStr "No";
          Website := PyStr "N/A" |} ∧
  Address {| Name := PyStr "Unknown"; Address := PyStr "";
             Price_Level := PyStr "N/A"; Has_Website := PyStr "No";
             Website := PyStr "N/A" |} = PyStr "".
Proof.
  assert (process_place (PyDict (<["formattedAddress" := PyStr ""]>
                                 (<["websiteUri" := PyStr ""]> ∅))) =
            Ok {| Name := PyStr "Unknown"; Address := PyStr "";
                  Price_Level := PyStr "N/A"; Has_Website := PyStr "No";
                  Website := PyStr "N/A" |}) as Hrun by reflexivity.
  split; [exact Hrun|].
  by apply (present_fields_pass_through _ _ Hrun).
Defined.

(** X5.  Normalising two sequences one after the other is normalising
    their concatenation: the records of the first, then those of the
    second, and the first exception met if there is one. *)
Theorem process_places_app (l1 l2 : list pyval) :
  process_places (l1 ++ l2) =
    result_bind (process_places l1) (λ out1,
    result_bind (process_places l2) (λ out2, Ok (out1 ++ out2))).
Proof.
  unfold process_places. rewrite process_places_from_app.
  destruct (process_places_from [] l1) as [out1|e]; simpl; [|done].
  rewrite <- (app_nil_r out1) at 1. apply process_places_from_acc.
Qed.

(** ** The ranking, applied again *)

(** X6.  Ranking a list that is already ranked changes nothing: a list in
    which no record with a website stands before one without is left as it
    is, and so is the result of a first ranking. *)
Theorem ranking_idempotent (l : list NormalizedPlace) :
  ((∀ i j x y, i < j → l !! i = Some x → l !! j = Some y →
               ¬ (website_key x = true ∧ website_key y = false)) →
   sort_by_key website_key l = l) ∧
  sort_by_key website_key (sort_by_key website_key l) = sort_by_key website_key l.
Proof.
  assert (∀ l' : list NormalizedPlace,
            (∀ i j x y, i < j → l' !! i = Some x → l' !! j = Some y →
                        ¬ (website_key x = true ∧ website_key y = false)) →
            sort_by_key website_key l' = l') as Hfix.
  { intros l' Hord. symmetry. by apply stable_sort_unique. }
  split; [apply Hfix|].
  apply Hfix. intros i j x y. apply sort_by_key_ordered.
Qed.

Lemma ranking_idempotent_witness :
  ∃ ranked,
    normalize_and_rank [with_site; cafe_a; PyDict ∅] = Ok ranked ∧
    sort_by_key website_key ranked = ranked.
Proof.
  eexists. split; [reflexivity|].
  apply (proj2 (ranking_idempotent _)).
Defined.

(** ** The query executor, on a body that is not JSON *)

(** X7.  At status 200 the body is parsed inside the [try]: when parsing
    raises a [RequestException] (the [JSONDecodeError] of [requests] is
    one), the executor returns [(None, description)] like for a transport
    fault; any other exception of the parser leaves the function. *)
Theorem undecodable_body (query api_key : string) (w : world) (resp : response) :
  network w (length (sent w)) (places_request query api_key) = Ok resp →
  status_code resp = 200%Z →
  (∀ msg, json resp = Raise (RequestException msg) →
     search_places query api_key w =
       (Ok (PyNone, Some (transport_error_msg msg)),
        record_request (places_request query api_key) w)) ∧
  (∀ e, json resp = Raise e → (∀ msg, e ≠ RequestException msg) →
     search_places query api_key w =
       (Raise e, record_request (places_request query api_key) w)).
Proof.
  intros Hnet Hstatus. rewrite search_places_run, Hnet, Hstatus. simpl.
  split.
  - by intros msg ->.
  - intros e -> He. destruct e as [msg| |msg]; [by destruct (He msg)|done..].
Qed.

Lemma undecodable_body_witness :
  (search_places "cafe" "key" (world_of (Ok html_body))).1 =
    Ok (PyNone, Some "An error occurred: Expecting value: line 1 column 1 (char 0)").
Proof.
  by rewrite (proj1 (undecodable_body "cafe" "key" (world_of (Ok html_body)) html_body
                       eq_refl eq_refl) _ eq_refl).
Defined.

(** ** The file name of the download *)

Lemma replace_spaces_get (s : string) (n : nat) :
  String.get n (replace_spaces s) =
    match String.get n s with
    | Some c => Some (if Ascii.eqb c " " then "_"%char else c)
    | None => None
    end.
Proof.
  revert n. induction s as [|c s IH]; intros [|n]; simpl; try done.
Qed.

Lemma replace_spaces_length (s : string) :
  String.length (replace_spaces s) = String.length s.
Proof. induction s as [|c s IH]; simpl; [done|]. by rewrite IH. Qed.

Lemma get_append_l (s t : string) (n : nat) :
  n < String.length s → String.get n (s +:+ t) = String.get n s.
Proof.
  revert n. induction s as [|c s IH]; intros n Hn; simpl in Hn; [lia|].
  rewrite append_cons. destruct n as [|n]; simpl; [done|]. apply IH. lia.
Qed.

Lemma get_append_r (s t : string) (n : nat) :
  String.get (String.length s + n) (s +:+ t) = String.get n t.
Proof. induction s as [|c s IH]; [done|]. rewrite append_cons. simpl. apply IH. Qed.

Lemma length_append (s t : string) :
  String.length (s +:+ t) = String.length s + String.length t.
Proof. induction s as [|c s IH]; [done|]. rewrite append_cons. simpl. by rewrite IH. Qed.

(** X8.  The file name offered for the download is [search_results_], the
    query with every space turned into an underscore and every other
    character kept, and [.csv]: it is 19 characters longer than the query
    and holds no space. *)
Theorem download_file_name_no_space (search_query : string) :
  String.length (download_file_name search_query) = 19 + String.length search_query ∧
  (∀ n, String.get n (download_file_name search_query) ≠ Some " "%char) ∧
  (∀ n c, String.get n search_query = Some c →
          String.get (15 + n) (download_file_name search_query)
            = Some (if Ascii.eqb c " " then "_"%char else c)).
Proof.
  unfold download_file_name.
  assert (∀ n, String.get (15 + n) ("search_results_" +:+ replace_spaces search_query +:+ ".csv")
               = String.get n (replace_spaces search_query +:+ ".csv")) as Hshift.
  { intros n. apply (get_append_r "search_results_"). }
  split; [|split].
  - rewrite !length_append, replace_spaces_length. simpl. lia.
  - intros n. destruct (decide (n < 15)) as [Hlt|Hge].
    + rewrite get_append_l by (simpl; lia).
      do 15 (destruct n as [|n]; [discriminate|]). simpl in Hlt. lia.
    + replace n with (15 + (n - 15)) by lia. rewrite Hshift.
      destruct (decide (n - 15 < String.length (replace_spaces search_query))) as [Hin|Hout].
      * rewrite get_append_l by done. rewrite replace_spaces_get.
        destruct (String.get (n - 15) search_query) as [c|]; [|done].
        destruct (Ascii.eqb_spec c " "); [discriminate|congruence].
      * replace (n - 15) with (String.length (replace_spaces search_query)
                               + (n - 15 - String.length (replace_spaces search_query)))
          by lia.
        rewrite get_append_r.
        generalize (n - 15 - String.length (replace_spaces search_query)). intros k.
        do 4 (destruct k as [|k]; [discriminate|]). by destruct k.
  - intros n c Hc. rewrite Hshift.
    assert (n < String.length search_query) as Hn.
    { clear Hshift. revert n Hc.
      induction search_query as [|c' s IH]; intros [|n]; simpl; try done; [lia|].
      intros H%IH. lia. }
    rewrite get_append_l by by rewrite replace_spaces_length.
    by rewrite replace_spaces_get, Hc.
Qed.

(** ** The handler, case by case *)

(** With a query and a key: the spinner, the search, then the error or the
    result. *)
Lemma handler_run (search_query api_key : string) (w : world) :
  search_query ≠ "" → api_key ≠ "" →
  handler true search_query api_key w =
    match search_places search_query api_key
            (record_call (St_spinner (spinner_label search_query)) w) with
    | (Ok (result, error), w') =>
        if truthy_error error
        then st (St_error ("❌ " +:+ default "" error)) w'
        else show_result search_query result w'
    | (Raise e, w') => (Raise e, w')
    end.
Proof.
  intros Hq%truthy_PyStr Hk%truthy_PyStr. unfold handler. rewrite Hq, Hk. simpl.
  unfold ST_bind at 1. simpl. unfold ST_bind at 1.
  destruct (search_places _ _ _) as [[[result error]|e] w']; [|done].
  by destruct (truthy_error error).
Qed.

Lemma request_failed_msg_truthy (status : Z) (body : string) :
  truthy_error (Some (request_failed_msg status body)) = true.
Proof. reflexivity. Qed.

Lemma transport_error_msg_truthy (msg : string) :
  truthy_error (Some (transport_error_msg msg)) = true.
Proof. reflexivity. Qed.

Lemma truthy_dict_with_key (d : gmap string pyval) (k : string) (v : pyval) :
  d !! k = Some v → truthy (PyDict d) = true.
Proof.
  intros Hk. simpl. rewrite bool_decide_eq_false_2; [done|].
  intros Hsize%map_size_empty_iff. subst d. by rewrite lookup_empty in Hk.
Qed.



(** X10.  A search that fails: the handler draws the spinner and one error
    box holding the description the executor returned, and nothing else;
    an exception that the executor does not catch leaves the handler after
    the spinner. *)
Theorem handler_shows_failure (search_query api_key : string) (w : world) :
  search_query ≠ "" → api_key ≠ "" →
  (∀ resp,
     network w (length (sent w)) (places_request search_query api_key) = Ok resp →
     status_code resp ≠ 200%Z →
     handler true search_query api_key w =
       (Ok tt,
        {| network := network w;
           sent := sent w ++ [places_request search_query api_key];
           page := page w ++
                   [St_spinner (spinner_label search_query);
                    St_error ("❌ " +:+ request_failed_msg (status_code resp)
                                                          (text resp))] |})) ∧
  (∀ msg,
     network w (length (sent w)) (places_request search_query api_key)
       = Raise (RequestException msg) →
     handler true search_query api_key w =
       (Ok tt,
        {| network := network w;
           sent := sent w ++ [places_request search_query api_key];
           page := page w ++ [St_spinner (spinner_label search_query);
                              St_error ("❌ " +:+ transport_error_msg msg)] |})) ∧
  (∀ e,
     network w (length (sent w)) (places_request search_query api_key) = Raise e →
     (∀ msg, e ≠ RequestException msg) →
     handler true search_query api_key w =
       (Raise e,
        {| network := network w;
           sent := sent w ++ [places_request search_query api_key];
           page := page w ++ [St_spinner (spinner_label search_query)] |})).
Proof.
  intros Hq Hk. split; [|split].
  - intros resp Hnet Hstatus%Z.eqb_neq.
    rewrite handler_run by done. rewrite search_places_run. simpl.
    rewrite Hnet, Hstatus. rewrite request_failed_msg_truthy.
    unfold st, record_call, record_request. simpl. by rewrite <- app_assoc.
  - intros msg Hnet.
    rewrite handler_run by done. rewrite search_places_run. simpl.
    rewrite Hnet. rewrite transport_error_msg_truthy.
    unfold st, record_call, record_request. simpl. by rewrite <- app_assoc.
  - intros e Hnet He.
    rewrite handler_run by done. rewrite search_places_run. simpl.
    rewrite Hnet. destruct e as [msg| |msg]; [by destruct (He msg)|done..].
Qed.

(** Scenario D on the page. *)
Lemma handler_shows_failure_witness :
  page (handler true "cafe" "key" (world_of (Ok forbidden))).2 =
    [St_spinner (spinner_label "cafe");
     St_error ("❌ " +:+ request_failed_msg 403 "forbidden")].
Proof.
  assert ("cafe" ≠ "" ∧ "key" ≠ "") as [Hq Hk] by (split; discriminate).
  assert (status_code forbidden ≠ 200%Z) as Hs by discriminate.
  by rewrite (proj1 (handler_shows_failure "cafe" "key" (world_of (Ok forbidden)) Hq Hk)
                forbidden eq_refl Hs).
Defined.

(** X11.  A success without places: when the parsed body is falsy ([null],
    [{}], [[]], [0], the empty string, [false]) or an object without a
    [places] key, the handler draws the warning that nothing was returned;
    when [places] is there but falsy (an empty list, [null]) it draws the
    warning that nothing was found for the query.  In neither case does it
    draw an error. *)
Theorem handler_shows_warning (search_query api_key : string) (w : world)
    (resp : response) (result : pyval) :
  search_query ≠ "" → api_key ≠ "" →
  network w (length (sent w)) (places_request search_query api_key) = Ok resp →
  status_code resp = 200%Z →
  json resp = Ok result →
  (truthy result = false ∨ (∃ d, result = PyDict d ∧ d !! "places" = None) →
   handler true search_query api_key w =
     (Ok tt,
      {| network := network w;
         sent := sent w ++ [places_request search_query api_key];
         page := page w ++ [St_spinner (spinner_label search_query);
                            St_warning "No results returned from the API"] |})) ∧
  (∀ d places, result = PyDict d → d !! "places" = Some places →
               truthy places = false →
   handler true search_query api_key w =
     (Ok tt,
      {| network := network w;
         sent := sent w ++ [places_request search_query api_key];
         page := page w ++
                 [St_spinner (spinner_label search_query);
                  St_warning ("No results found for '" +:+ search_query +:+ "'")] |})).
Proof.
  intros Hq Hk Hnet Hstatus Hjson.
  rewrite handler_run by done. rewrite search_places_run. simpl.
  rewrite Hnet, Hstatus, Hjson. simpl. unfold show_result.
  split.
  - intros [Hfalsy|(d & -> & Hnone)].
    + rewrite Hfalsy. unfold ST_bind, ST_lift, st, record_call, record_request. simpl.
      by rewrite <- app_assoc.
    + destruct (truthy (PyDict d)); simpl.
      * unfold ST_bind at 1. simpl.
        rewrite bool_decide_eq_false_2 by (rewrite Hnone; by intros [??]).
        unfold st, record_call, record_request. simpl. by rewrite <- app_assoc.
      * unfold ST_bind, ST_lift, st, record_call, record_request. simpl.
        by rewrite <- app_assoc.
  - intros d places -> Hplaces Hfalsy.
    rewrite (truthy_dict_with_key _ _ _ Hplaces). simpl.
    unfold ST_bind at 1. simpl.
    rewrite bool_decide_eq_true_2 by by rewrite Hplaces.
    unfold ST_bind at 1. simpl. rewrite Hplaces, Hfalsy.
    unfold st, record_call, record_request. simpl. by rewrite <- app_assoc.
Qed.

Lemma handler_shows_warning_witness :
  page (handler true "cafe" "key" (world_of (Ok null_body))).2 =
    [St_spinner (spinner_label "cafe");
     St_warning "No results returned from the API"] ∧
  page (handler true "cafe" "key" (world_of (Ok empty_places))).2 =
    [St_spinner (spinner_label "cafe");
     St_warning "No results found for 'cafe'"].
Proof.
  assert ("cafe" ≠ "" ∧ "key" ≠ "") as [Hq Hk] by (split; discriminate).
  split.
  - by rewrite (proj1 (handler_shows_warning "cafe" "key" (world_of (Ok null_body))
                         null_body PyNone Hq Hk eq_refl eq_refl eq_refl)
                  (or_introl eq_refl)).
  - by rewrite (proj2 (handler_shows_warning "cafe" "key" (world_of (Ok empty_places))
                         empty_places (PyDict {["places" := PyList []]})
                         Hq Hk eq_refl eq_refl eq_refl)
                  {["places" := PyList []]} (PyList []) eq_refl eq_refl eq_refl).
Defined.

(** ** What the handler leaves alone *)

Lemma draws_only_lift {A : Type} (r : result A) : draws_only (ST_lift r).
Proof. intros [net s p]. exists []. unfold ST_lift. simpl. by rewrite app_nil_r. Qed.

Lemma draws_only_ret {A : Type} (a : A) : draws_only (ST_ret a).
Proof. intros [net s p]. exists []. unfold ST_ret. simpl. by rewrite app_nil_r. Qed.

Lemma draws_only_st (c : st_call) : draws_only (st c).
Proof. intros w. by exists [c]. Qed.

Lemma draws_only_bind {A B : Type} (m : M A) (f : A → M B) :
  draws_only m → (∀ a, draws_only (f a)) → draws_only (ST_bind m f).
Proof.
  intros Hm Hf w. unfold ST_bind. destruct (Hm w) as [calls Hcalls].
  destruct (m w) as [[a|e] w1]; simpl in *.
  - destruct (Hf a w1) as [calls' Hcalls']. exists (calls ++ calls').
    rewrite Hcalls'. subst w1. simpl. by rewrite app_assoc.
  - by exists calls.
Qed.

Create HintDb draws.
#[local] Hint Resolve draws_only_lift draws_only_ret draws_only_st : draws.

Lemma show_result_draws_only (search_query : string) (result : pyval) :
  draws_only (show_result search_query result).
Proof.
  unfold show_result.
  apply draws_only_bind; [auto with draws|]. intros [|]; [|auto with draws].
  apply draws_only_bind; [auto with draws|]. intros places.
  destruct (truthy places); [|auto with draws].
  repeat (apply draws_only_bind; [auto with draws|]; intros ?).
  auto with draws.
Qed.

(** X12.  Whatever the inputs and whatever the network answers, one run of
    the handler sends no request or the one request of the search, in every
    case only appends to the page, and leaves what was sent and drawn
    before, and the network, as they were. *)
Theorem handler_frame (search_clicked : bool) (search_query api_key : string)
    (w : world) :
  ∃ reqs calls,
    (reqs = [] ∨ reqs = [places_request search_query api_key]) ∧
    (handler search_clicked search_query api_key w).2 =
      {| network := network w; sent := sent w ++ reqs; page := page w ++ calls |}.
Proof.
  destruct search_clicked.
  2:{ exists [], []. split; [by left|]. destruct w. simpl. by rewrite !app_nil_r. }
  destruct (decide (search_query = "")) as [->|Hq].
  { exists [], [St_error "Please enter a search query"]. split; [by left|].
    simpl. by rewrite app_nil_r. }
  destruct (decide (api_key = "")) as [->|Hk].
  { exists [], [St_error "Please provide your Google Places API key in the settings above"].
    split; [by left|]. unfold handler.
    rewrite (proj2 (truthy_PyStr search_query) Hq). simpl. by rewrite app_nil_r. }
  rewrite handler_run by done.
  pose proof (search_places_run search_query api_key
                (record_call (St_spinner (spinner_label search_query)) w)) as Hrun.
  destruct (search_places _ _ _) as [r w1]. injection Hrun as _ Hw1.
  assert (∀ calls, {| network := network w1; sent := sent w1; page := page w1 ++ calls |} =
                   {| network := network w;
                      sent := sent w ++ [places_request search_query api_key];
                      page := page w ++ St_spinner (spinner_label search_query) :: calls |})
    as Hframe.
  { intros calls. subst w1. unfold record_request, record_call. simpl.
    by rewrite <- app_assoc. }
  clear Hw1. rename Hframe into Hw1.
  exists [places_request search_query api_key].
  destruct r as [[result error]|e].
  - destruct (truthy_error error).
    + eexists. split; [by right|]. simpl. unfold record_call. apply Hw1.
    + destruct (show_result_draws_only search_query result w1) as [calls ->].
      eexists. split; [by right|]. by rewrite Hw1.
  - exists [St_spinner (spinner_label search_query)]. split; [by right|].
    simpl. rewrite <- (Hw1 []). clear Hw1. destruct w1. simpl. by rewrite app_nil_r.
Qed.

(** X13.  A body the handler cannot read: when the response has status 200
    and its body parses to a number other than zero or to [true], the test
    [in] of line 141 raises; when the body is an object whose [places] is
    such a value, [len] of line 145 raises.  In both cases the handler
    stops after the spinner, with nothing else drawn. *)
Theorem handler_raises_on_scalar (search_query api_key : string) (w : world)
    (resp : response) (result : pyval) :
  search_query ≠ "" → api_key ≠ "" →
  network w (length (sent w)) (places_request search_query api_key) = Ok resp →
  status_code resp = 200%Z →
  json resp = Ok result →
  (∃ v, (result = v ∨ ∃ d, result = PyDict d ∧ d !! "places" = Some v) ∧
        truthy v = true ∧
        match v with PyBool _ | PyInt _ | PyFloat _ => True | _ => False end) →
  handler true search_query api_key w =
    (Raise OperandError,
     {| network := network w;
        sent := sent w ++ [places_request search_query api_key];
        page := page w ++ [St_spinner (spinner_label search_query)] |}).
Proof.
  intros Hq Hk Hnet Hstatus Hjson (v & Hv & Htruthy & Hscalar).
  rewrite handler_run by done. rewrite search_places_run. simpl.
  rewrite Hnet, Hstatus, Hjson. simpl. unfold show_result.
  destruct Hv as [->|(d & -> & Hplaces)].
  - rewrite Htruthy. by destruct v.
  - rewrite (truthy_dict_with_key _ _ _ Hplaces). simpl.
    unfold ST_bind at 1. simpl.
    rewrite bool_decide_eq_true_2 by by rewrite Hplaces.
    unfold ST_bind at 1. simpl. rewrite Hplaces, Htruthy.
    by destruct v.
Qed.

Lemma handler_raises_on_scalar_witness :
  handler true "cafe" "key"
    (world_of (Ok {| status_code := 200; text := "7"; json := Ok (PyInt 7) |})) =
    (Raise OperandError,
     {| network := λ _ _, Ok {| status_code := 200; text := "7"; json := Ok (PyInt 7) |};
        sent := [places_request "cafe" "key"];
        page := [St_spinner (spinner_label "cafe")] |}).
Proof.
  assert ("cafe" ≠ "" ∧ "key" ≠ "") as [Hq Hk] by (split; discriminate).
  apply (handler_raises_on_scalar "cafe" "key"
           (world_of (Ok {| status_code := 200; text := "7"; json := Ok (PyInt 7) |}))
           {| status_code := 200; text := "7"; json := Ok (PyInt 7) |} (PyInt 7)
           Hq Hk eq_refl eq_refl eq_refl).
  exists (PyInt 7). split; [by left|]. by split.
Defined.

(** ** The list that is returned *)

(** X14.  [process_places] answers with a list object of its own: a
    location that held nothing before the call, hence never the list it was
    given, with one entry per place; and the sort of line 151 rewrites that
    object in place, so that what lines 148 and 151 hand on is this same
    object. *)
Theorem result_list_is_fresh (s : machine) (places : val) (ts : list pyval)
    (out : list NormalizedPlace) :
  denotes (objects s) places (PyList ts) →
  process_places ts = Ok out →
  ∃ pl s' out_v,
    Store.process_places places s = (Ok (VRef pl), s') ∧
    objects s !! pl = None ∧
    places ≠ VRef pl ∧
    objects s' !! pl = Some (OList out_v) ∧
    length out_v = length ts ∧
    (Store.normalize_and_rank places s).1 = Ok (VRef pl) ∧
    ∃ ranked_v,
      objects (Store.normalize_and_rank places s).2 !! pl = Some (OList ranked_v) ∧
      length ranked_v = length ts.
Proof.
  intros Hplaces Hout.
  destruct (process_places_refines s places ts Hplaces) as (s' & pl & Hpl & Hs' & Hrun).
  rewrite Hout in Hrun. destruct Hrun as (Hrun & out_v & Hpl' & Hrec).
  exists pl, s', out_v.
  split; [done|]. split; [done|].
  split.
  { apply denotes_list_inv in Hplaces as (l & items & -> & Hl & _). congruence. }
  split; [done|].
  assert (length out_v = length ts) as Hlen.
  { apply process_places_Ok, Forall2_length in Hout.
    apply Forall2_length in Hrec. congruence. }
  split; [done|].
  destruct (sort_refines (objects s) pl s' out_v out Hpl' Hrec) as (vs' & Hsort & Hvs').
  unfold Store.normalize_and_rank.
  rewrite (ST_bind_Ok _ _ _ _ _ Hrun), (ST_bind_Ok _ _ _ _ _ Hsort). simpl.
  split; [done|]. exists vs'. rewrite lookup_insert_eq. split; [done|].
  apply Forall2_length in Hvs'. rewrite sort_by_key_length in Hvs'.
  apply Forall2_length in Hrec. congruence.
Qed.

Lemma result_list_is_fresh_witness :
  ∃ pl s' out_v,
    Store.process_places (VRef 1%positive) store_a = (Ok (VRef pl), s') ∧
    objects store_a !! pl = None ∧
    VRef 1%positive ≠ VRef pl ∧
    objects s' !! pl = Some (OList out_v) ∧
    length out_v = 2 ∧
    (Store.normalize_and_rank (VRef 1%positive) store_a).1 = Ok (VRef pl) ∧
    ∃ ranked_v,
      objects (Store.normalize_and_rank (VRef 1%positive) store_a).2 !! pl
        = Some (OList ranked_v) ∧
      length ranked_v = 2.
Proof.
  assert (∃ out, process_places [with_site; cafe_a] = Ok out) as [out Hout]
    by by eexists.
  exact (result_list_is_fresh store_a (VRef 1%positive) [with_site; cafe_a] out
           store_a_denotes Hout).
Defined.

(** ** The ranking, read on the places given *)

Lemma website_key_of_place (place : pyval) (x : NormalizedPlace) :
  process_place place = Ok x → website_key x = place_has_website place.
Proof.
  intros Hx. destruct (process_place_Ok_dict _ _ Hx) as [d ->].
  rewrite process_place_dict in Hx. cbv zeta in Hx.
  apply result_bind_Ok in Hx as (name & _ & [= <-]).
  unfold website_key, py_eq_str, place_has_website. simpl.
  by destruct (truthy _).
Qed.

Lemma process_place_filter (b : bool) (places : list pyval)
    (processed : list NormalizedPlace) :
  Forall2 (λ p x, process_place p = Ok x) places processed →
  Forall2 (λ p x, process_place p = Ok x)
    (filter (λ p, place_has_website p = b) places)
    (filter (λ x, website_key x = b) processed).
Proof.
  induction 1 as [|p x places processed Hx _ IH]; [constructor|].
  pose proof (website_key_of_place p x Hx) as Hkey.
  destruct (decide (place_has_website p = b)) as [Hb|Hb].
  - rewrite !filter_cons_True by congruence. by constructor.
  - by rewrite !filter_cons_False by congruence.
Qed.

(** X15.  Lines 148 and 151 together, in closed form: the ranked list is
    the normal forms of the places without a website, in the order given,
    followed by the normal forms of the places with one, in the order
    given.  A place has a website when its [websiteUri] is present and
    truthy. *)
Theorem ranked_by_input (places : list pyval) (ranked : list NormalizedPlace) :
  normalize_and_rank places = Ok ranked →
  ∃ without_site with_one,
    process_places (filter (λ p, place_has_website p = false) places) = Ok without_site ∧
    process_places (filter (λ p, place_has_website p = true) places) = Ok with_one ∧
    ranked = without_site ++ with_one.
Proof.
  unfold normalize_and_rank. rewrite result_bind_Ok.
  intros (processed & Hprocessed%process_places_Ok & [= <-]).
  exists (filter (λ x, website_key x = false) processed),
         (filter (λ x, website_key x = true) processed).
  split; [by apply process_places_Ok, process_place_filter|].
  split; [by apply process_places_Ok, process_place_filter|].
  apply sort_by_key_partition.
Qed.

Lemma ranked_by_input_witness :
  ∃ without_site with_one,
    process_places [cafe_a; PyDict ∅] = Ok without_site ∧
    process_places [with_site] = Ok with_one ∧
    normalize_and_rank [with_site; cafe_a; PyDict ∅] = Ok (without_site ++ with_one).
Proof.
  assert (∃ ranked, normalize_and_rank [with_site; cafe_a; PyDict ∅] = Ok ranked)
    as [ranked Hranked] by by eexists.
  destruct (ranked_by_input [with_site; cafe_a; PyDict ∅] ranked Hranked)
    as (without_site & with_one & H1 & H2 & ->).
  by exists without_site, with_one.
Defined.
